(** * Vibeboard: the audio share manager and the offline-cache service worker

    A shallow embedding of [src/js/share.js] (class [AudioShareManager]) and
    of [src/service-worker.js], followed by the properties the written
    specification states about them.

    Conventions of the embedding.

    - A JavaScript string is a [string] holding its UTF-8 bytes, so only
      well-formed strings (no lone surrogate) are represented.
    - The browser is split in two: a [Platform], the part the page cannot
      change (origin, network, share sheet, clipboard API), and a [World],
      the part the code mutates (document body, blob URL store, clipboard
      content, pending timers) together with the chronological [trace] of
      the effects the user or the platform can observe.
    - A method is a computation in the monad [M]: it threads the [World] and
      ends either normally or by throwing.  [async]/[await] is sequential
      composition: a share request runs as one task and shares no mutable
      state with another one, so a rejected promise that is awaited is a
      [Throw] at the point of the [await]. *)

From Stdlib Require Import Ascii NArith.
From stdpp Require Import base strings list gmap.

(** ** JavaScript strings *)

Module Js.

(** The double quote and the line feed, which the template literals of the
    source contain. *)
Definition dq : string := String "034"%char EmptyString.
Definition nl : string := String "010"%char EmptyString.

(** [encodeURIComponent]: every byte of the UTF-8 form is kept when it is
    one of [A-Z a-z 0-9 - _ . ! ~ * ' ( )] and written [%XX] (upper-case
    hexadecimal) otherwise. *)
Definition unreserved (c : ascii) : bool :=
  let n := N_of_ascii c in
  ((65 <=? n) && (n <=? 90) || (97 <=? n) && (n <=? 122)
   || (48 <=? n) && (n <=? 57)
   || (n =? 45) || (n =? 95) || (n =? 46) || (n =? 33) || (n =? 126)
   || (n =? 42) || (n =? 39) || (n =? 40) || (n =? 41))%N.

Definition hexDigit (n : N) : ascii :=
  if (n <? 10)%N then ascii_of_N (48 + n) else ascii_of_N (55 + n).

Definition percentEncode (c : ascii) : string :=
  String "%"%char
    (String (hexDigit (N_of_ascii c / 16))
       (String (hexDigit (N_of_ascii c mod 16)) EmptyString)).

Fixpoint encodeURIComponent (s : string) : string :=
  match s with
  | EmptyString => EmptyString
  | String c rest =>
      (if unreserved c then String c EmptyString else percentEncode c)
        +:+ encodeURIComponent rest
  end.

(** [decodeURIComponent], the inverse the platform offers: [%XX] is read as
    the byte of that hexadecimal value, any other character stands for
    itself, and a [%] that two hexadecimal digits do not follow is an
    error ([None]).  The strings of the model hold UTF-8 by convention, so
    the check that the bytes read form UTF-8 is not spelled out. *)
Definition hexValue (c : ascii) : option N :=
  let n := N_of_ascii c in
  (if (48 <=? n) && (n <=? 57) then Some (n - 48)
   else if (65 <=? n) && (n <=? 70) then Some (n - 55)
   else if (97 <=? n) && (n <=? 102) then Some (n - 87)
   else None)%N.

Fixpoint decodeURIComponent (s : string) : option string :=
  match s with
  | EmptyString => Some EmptyString
  | String c rest =>
      if Ascii.eqb c "%"
      then match rest with
           | String h (String l rest') =>
               match hexValue h, hexValue l with
               | Some a, Some b =>
                   option_map (String (ascii_of_N (16 * a + b)))
                     (decodeURIComponent rest')
               | _, _ => None
               end
           | _ => None
           end
      else option_map (String c) (decodeURIComponent rest)
  end.

(** The characters of a string. *)
Definition chars (s : string) : list ascii := String.list_ascii_of_string s.

(** [s] occurs in [t]. *)
Definition contains (t s : string) : Prop :=
  exists before after, t = before +:+ s +:+ after.

End Js.

(** ** The share manager: [src/js/share.js] *)

Module Share.
Import Js.

(** *** Values *)

Record Blob := { blob_bytes : list N; blob_type : string }.

Record File := { file_bits : list Blob; file_name : string; file_type : string }.

(** The dictionary passed to [navigator.share] and [navigator.canShare];
    a key that the source leaves out is [None]. *)
Record ShareData := {
  title : option string;
  text : option string;
  files : option (list File)
}.

(** An [Error] object; the code reads nothing but its [message]. *)
Record JsError := Error { message : string }.

(** How a call ends: normally, or by throwing (for a promise: fulfilled,
    or rejected). *)
Inductive Completion (A : Type) : Type :=
| Normal (a : A)
| Throw (e : JsError).
Arguments Normal {A} a.
Arguments Throw {A} e.

(** A fetch [Response]: its [ok] flag and what [response.blob()] settles
    to. *)
Record Response := { ok : bool; blob : Completion Blob }.

(** A blob URL, as [URL.createObjectURL] hands it out: a handle into the
    page's blob URL store. *)
Definition ObjectUrl := nat.

(** *** The manual-options surface

    The markup assigned to [content.innerHTML] is kept as what the browser
    makes of it: the text of the heading and the buttons in document order,
    each with what its [onclick] attribute compiles to.  The inline styles
    are left out.  A handler is a call of one method of the page-wide
    instance with literal arguments, the removal of the closest modal, an
    attribute that does not compile ([OnInvalid]), or none ([OnNone]).  An
    attribute that a spliced value turns into a script of another shape is
    not represented. *)
Inductive Handler : Type :=
| OnDownloadAndShare (filename : string) (downloadUrl : ObjectUrl)
| OnShareViaEmail (filename : string) (downloadUrl : ObjectUrl)
| OnCopyFileLink (directory filename : string)
| OnShareToWhatsApp (filename directory : string)
| OnShareToTwitter (filename directory : string)
| OnRemoveClosest                     (* this.closest('.share-modal').remove() *)
| OnInvalid                           (* source text that is not a function body *)
| OnNone.                             (* no handler *)

Record Button := { label : string; onclick : Handler }.

(** *** The platform *)

Record Platform := {
  location_origin : string;                          (* window.location.origin *)
  fetch : string -> Completion Response;             (* fetch(url) *)
  navigator_share : option (ShareData -> Completion unit);
  navigator_canShare : option (ShareData -> bool);
  navigator_clipboard : option (string -> Completion unit); (* clipboard.writeText *)
  (* What the HTML and script parsers make of the markup of the
     manual-options template once a file name, a directory and a blob URL
     are spliced into it: the heading text and the buttons.  The model
     consults it only for values whose effect on the markup it does not
     spell out itself, see [renderSurface]. *)
  innerHTML_of : string -> string -> ObjectUrl -> string * list Button
}.

(** A [div.share-modal] of the document: its node identity, its content
    and the blob URL its backdrop click listener has captured. *)
Record Modal := {
  modal_id : nat;
  heading : string;
  buttons : list Button;
  listener_url : ObjectUrl
}.

(** *** Observable effects *)

Inductive Event : Type :=
| EFetch (url : string)
| EConsoleError (what : string) (e : JsError)
| EConsoleLog (what : string) (e : JsError)
| EAlert (msg : string)
| EShare (d : ShareData)
| ECreateObjectURL (u : ObjectUrl)
| ERevokeObjectURL (u : ObjectUrl)
| EAppendModal (id : nat)
| ERemoveModal (id : nat)
| EWindowOpen (url : string)
| EClipboardWrite (data : string)
| EDownload (href : ObjectUrl) (download : string)
| ESetTimeout (ms : nat) (msg : string)
| EUncaught (e : JsError).

(** *** The mutable world *)

Record World := {
  body : list Modal;                 (* the share modals under document.body *)
  blob_urls : gmap nat Blob;         (* the blob URL store *)
  next_url : ObjectUrl;
  next_node : nat;
  clipboard : option string;
  timers : list (nat * string);      (* pending setTimeout alerts *)
  trace : list Event
}.

Definition initial : World :=
  {| body := []; blob_urls := ∅; next_url := 0; next_node := 0;
     clipboard := None; timers := []; trace := [] |}.

(** *** The monad of methods *)

Definition M (A : Type) : Type := World -> Completion A * World.

Definition ret {A} (a : A) : M A := fun w => (Normal a, w).

Definition bind {A B} (m : M A) (k : A -> M B) : M B :=
  fun w =>
    match m w with
    | (Normal a, w') => k a w'
    | (Throw e, w') => (Throw e, w')
    end.

Definition throw {A} (e : JsError) : M A := fun w => (Throw e, w).

(** [try { m } catch (error) { h error }] *)
Definition try_catch {A} (m : M A) (h : JsError -> M A) : M A :=
  fun w =>
    match m w with
    | (Normal a, w') => (Normal a, w')
    | (Throw e, w') => h e w'
    end.

(** [await p] for a promise that has settled to [c]. *)
Definition await {A} (c : Completion A) : M A := fun w => (c, w).

(** The world after the effects [evs] have been observed, in that order. *)
Definition record (evs : list Event) (w : World) : World :=
  {| body := body w; blob_urls := blob_urls w; next_url := next_url w;
     next_node := next_node w; clipboard := clipboard w;
     timers := timers w; trace := trace w ++ evs |}.

Definition emit (e : Event) : M unit := fun w => (Normal tt, record [e] w).

Definition set_body (b : list Modal) (w : World) : World :=
  {| body := b; blob_urls := blob_urls w; next_url := next_url w;
     next_node := next_node w; clipboard := clipboard w;
     timers := timers w; trace := trace w |}.

Declare Scope js_scope.
Delimit Scope js_scope with js.
Notation "x <- m ;; k" := (bind m (fun x => k))
  (at level 100, m at next level, right associativity) : js_scope.
Notation "m ;; k" := (bind m (fun _ => k))
  (at level 100, right associativity) : js_scope.
Local Open Scope js_scope.

(** *** Browser primitives *)

Definition alert (msg : string) : M unit := emit (EAlert msg).

Definition console_error (what : string) (e : JsError) : M unit :=
  emit (EConsoleError what e).

Definition console_log (what : string) (e : JsError) : M unit :=
  emit (EConsoleLog what e).

Definition window_open (url : string) : M unit := emit (EWindowOpen url).

(** [document.createElement('div')] for the modal: a fresh node. *)
Definition createElement : M nat :=
  fun w =>
    (Normal (next_node w),
     {| body := body w; blob_urls := blob_urls w; next_url := next_url w;
        next_node := S (next_node w); clipboard := clipboard w;
        timers := timers w; trace := trace w |}).

(** [URL.createObjectURL(blob)]: a fresh entry of the blob URL store. *)
Definition createObjectURL (b : Blob) : M ObjectUrl :=
  fun w =>
    let u := next_url w in
    (Normal u,
     {| body := body w; blob_urls := <[u := b]> (blob_urls w);
        next_url := S u; next_node := next_node w;
        clipboard := clipboard w; timers := timers w;
        trace := trace w ++ [ECreateObjectURL u] |}).

(** [URL.revokeObjectURL(u)]: the entry is dropped from the store. *)
Definition revokeObjectURL (u : ObjectUrl) : M unit :=
  fun w =>
    (Normal tt,
     {| body := body w; blob_urls := delete u (blob_urls w);
        next_url := next_url w; next_node := next_node w;
        clipboard := clipboard w; timers := timers w;
        trace := trace w ++ [ERevokeObjectURL u] |}).

(** [document.body.appendChild(modal)] *)
Definition appendChild (m : Modal) : M unit :=
  fun w => emit (EAppendModal (modal_id m)) (set_body (body w ++ [m]) w).

(** [modal.remove()] for the node [id]; a node that is not in the
    document is left alone. *)
Definition remove (id : nat) : M unit :=
  fun w =>
    if existsb (fun m => Nat.eqb (modal_id m) id) (body w)
    then emit (ERemoveModal id)
           (set_body (List.filter (fun m => negb (Nat.eqb (modal_id m) id)) (body w)) w)
    else (Normal tt, w).

(** [setTimeout(() => alert(msg), ms)] *)
Definition setTimeout (ms : nat) (msg : string) : M unit :=
  fun w =>
    (Normal tt,
     {| body := body w; blob_urls := blob_urls w; next_url := next_url w;
        next_node := next_node w; clipboard := clipboard w;
        timers := timers w ++ [(ms, msg)];
        trace := trace w ++ [ESetTimeout ms msg] |}).

Definition set_clipboard (data : string) : M unit :=
  fun w =>
    (Normal tt,
     {| body := body w; blob_urls := blob_urls w; next_url := next_url w;
        next_node := next_node w; clipboard := Some data;
        timers := timers w; trace := trace w |}).

(** *** class AudioShareManager *)

Record AudioShareManager := { baseUrl : string }.

Section Methods.
Variable P : Platform.

(** [constructor()] *)
Definition constructor : AudioShareManager :=
  {| baseUrl := location_origin P |}.

Variable this : AudioShareManager.

(** [fetch(url)] *)
Definition do_fetch (url : string) : M Response :=
  emit (EFetch url) ;; await (fetch P url).

(** [navigator.share(d)], once [navigator.share] is known to exist. *)
Definition do_share (share : ShareData -> Completion unit) (d : ShareData) : M unit :=
  emit (EShare d) ;; await (share d).

(** [navigator.canShare && navigator.canShare(d)] *)
Definition canShare (d : ShareData) : bool :=
  match navigator_canShare P with
  | None => false
  | Some check => check d
  end.

(** [navigator.clipboard.writeText(data)]; without a clipboard API the
    property access throws a [TypeError]. *)
Definition writeText (data : string) : M unit :=
  match navigator_clipboard P with
  | None => throw (Error "Cannot read properties of undefined (reading 'writeText')")
  | Some write =>
      emit (EClipboardWrite data) ;;
      await (write data) ;;
      set_clipboard data
  end.

Definition showSuccessMessage (msg : string) : M unit :=
  alert ("✅ " +:+ msg).

(** The text of the error alert. *)
Definition errorText (filename error : string) : string :=
  "❌ Failed to share " +:+ dq +:+ filename +:+ dq +:+ nl +:+ nl
  +:+ "Error: " +:+ error.

Definition showErrorMessage (filename error : string) : M unit :=
  alert (errorText filename error).

(** [closeModal()]: [document.querySelector('.share-modal')] is the
    first modal in document order. *)
Definition closeModal : M unit :=
  fun w =>
    match body w with
    | [] => (Normal tt, w)
    | modal :: _ => remove (modal_id modal) w
    end.

Definition fetchAudioFile (directory filename : string) : M Blob :=
  response <- do_fetch (directory +:+ "/" +:+ filename +:+ ".mp3") ;;
  if negb (ok response)
  then throw (Error "Failed to fetch audio file")
  else await (blob response).

(** [new File([audioBlob], `${filename}.mp3`, { type: 'audio/mpeg' })] *)
Definition audioFile (filename : string) (audioBlob : Blob) : File :=
  {| file_bits := [audioBlob];
     file_name := filename +:+ ".mp3";
     file_type := "audio/mpeg" |}.

Definition tryNativeFileShare (filename : string) (audioBlob : Blob) : M bool :=
  match navigator_share P with
  | None => ret false
  | Some share =>
      try_catch
        (let file := audioFile filename audioBlob in
         if canShare {| title := None; text := None; files := Some [file] |}
         then
           do_share share
             {| title := Some ("Vibeboard Sound: " +:+ filename);
                text := Some "Check out this sound from Vibeboard!";
                files := Some [file] |} ;;
           ret true
         else
           do_share share
             {| title := Some ("Vibeboard Sound: " +:+ filename);
                text := Some ("Check out this sound from Vibeboard: "
                              +:+ dq +:+ filename +:+ dq);
                files := None |} ;;
           ret true)
        (fun error => console_log "Native share failed:" error ;; ret false)
  end.

(** The buttons of the template, in document order, with the calls of
    their [onclick] attributes as the template writes them. *)
Definition modalButtons (filename directory : string) (downloadUrl : ObjectUrl)
  : list Button :=
  [ {| label := "📥 Download File & Share Manually";
       onclick := OnDownloadAndShare filename downloadUrl |};
    {| label := "📧 Share via Email";
       onclick := OnShareViaEmail filename downloadUrl |};
    {| label := "🔗 Copy File Link";
       onclick := OnCopyFileLink directory filename |};
    {| label := "💬 WhatsApp";
       onclick := OnShareToWhatsApp filename directory |};
    {| label := "🐦 Twitter";
       onclick := OnShareToTwitter filename directory |};
    {| label := "Close"; onclick := OnRemoveClosest |} ].

(** The template splices [filename] and [directory] into the markup as
    they are: into the text of the heading, and into the [onclick]
    attributes between double quotes, there between the single quotes of a
    script string.  A value is plain when this leaves it intact in each of
    these places: it holds no control character, no double quote, no
    apostrophe, no backslash, no ampersand and neither [<] nor [>]. *)
Definition plainChar (c : ascii) : bool :=
  let n := N_of_ascii c in
  ((32 <=? n) && negb (n =? 34) && negb (n =? 38) && negb (n =? 39)
   && negb (n =? 60) && negb (n =? 62) && negb (n =? 92) && negb (n =? 127))%N.

Fixpoint plain (s : string) : bool :=
  match s with
  | EmptyString => true
  | String c rest => plainChar c && plain rest
  end.

(** [beforeComment s] is what comes before a final [<!--] of [s]. *)
Fixpoint beforeComment (s : string) : option string :=
  match s with
  | EmptyString => None
  | String c rest =>
      if String.eqb s "<!--" then Some EmptyString
      else option_map (String c) (beforeComment rest)
  end.

(** What the content box holds once the markup is assigned to
    [content.innerHTML]:
    - for a plain file name and directory, the heading and the six buttons
      of the template, with the calls as written;
    - for a file name that is a plain text followed by [<!--], with a plain
      directory, the heading up to there and no button: the rest of the
      markup holds no [>] after two dashes, so all of it is one comment;
    - for any other value, what the parsers of the platform make of it. *)
Definition renderSurface (filename directory : string) (downloadUrl : ObjectUrl)
  : string * list Button :=
  if plain filename && plain directory
  then ("Share " +:+ dq +:+ filename +:+ dq,
        modalButtons filename directory downloadUrl)
  else
    match beforeComment filename with
    | Some text =>
        if plain text && plain directory
        then ("Share " +:+ dq +:+ text, [])
        else innerHTML_of P filename directory downloadUrl
    | None => innerHTML_of P filename directory downloadUrl
    end.

(** The click listener is registered in the synchronous turn that
    appends the modal, so the modal enters the document with it. *)
Definition showFileShareOptions (filename directory : string) (audioBlob : Blob)
  : M unit :=
  modal <- createElement ;;
  downloadUrl <- createObjectURL audioBlob ;;
  appendChild
    {| modal_id := modal;
       heading := (renderSurface filename directory downloadUrl).1;
       buttons := (renderSurface filename directory downloadUrl).2;
       listener_url := downloadUrl |}.

Definition shareSound (filename directory : string) : M unit :=
  try_catch
    (audioBlob <- fetchAudioFile directory filename ;;
     shared <- tryNativeFileShare filename audioBlob ;;
     if (shared : bool)
     then ret tt
     else showFileShareOptions filename directory audioBlob)
    (fun error =>
       console_error "Share failed:" error ;;
       showErrorMessage filename (message error)).

Definition downloadInstructions (filename : string) : string :=
  "✅ " +:+ dq +:+ filename +:+ ".mp3" +:+ dq +:+ " downloaded!" +:+ nl +:+ nl
  +:+ "Now you can:" +:+ nl
  +:+ "• Share it directly to Instagram Stories" +:+ nl
  +:+ "• Send via Messenger" +:+ nl
  +:+ "• Add to any social media app" +:+ nl
  +:+ "• Send via AirDrop/Bluetooth".

(** The temporary anchor is appended, clicked and removed at once; what
    remains of it is the download it starts. *)
Definition downloadAndShare (filename : string) (downloadUrl : ObjectUrl) : M unit :=
  emit (EDownload downloadUrl (filename +:+ ".mp3")) ;;
  setTimeout 500 (downloadInstructions filename) ;;
  closeModal.

Definition emailSubject (filename : string) : string :=
  "Check out this sound: " +:+ filename.

Definition emailBody (filename : string) : string :=
  "Hey! Check out this awesome sound from Vibeboard: "
  +:+ dq +:+ filename +:+ dq +:+ nl +:+ nl
  +:+ "I've attached the audio file for you to enjoy!" +:+ nl +:+ nl
  +:+ "Note: Download the file from: "
  +:+ baseUrl this +:+ "/sounds/" +:+ filename +:+ ".mp3".

Definition shareViaEmail (filename : string) (downloadUrl : ObjectUrl) : M unit :=
  let subject := encodeURIComponent (emailSubject filename) in
  let body := encodeURIComponent (emailBody filename) in
  window_open ("mailto:?subject=" +:+ subject +:+ "&body=" +:+ body) ;;
  downloadAndShare filename downloadUrl.

Definition fileUrlOf (directory filename : string) : string :=
  baseUrl this +:+ "/" +:+ directory +:+ "/" +:+ filename +:+ ".mp3".

(** The text of the success notice of [copyFileLink]. *)
Definition copiedText (fileUrl : string) : string :=
  "File link copied!" +:+ nl +:+ nl +:+ dq +:+ fileUrl +:+ dq +:+ nl +:+ nl
  +:+ "Paste this anywhere to share the audio file.".

Definition copyFileLink (directory filename : string) : M unit :=
  let fileUrl := fileUrlOf directory filename in
  try_catch
    (writeText fileUrl ;;
     showSuccessMessage (copiedText fileUrl))
    (fun error => showErrorMessage filename "Could not copy to clipboard") ;;
  closeModal.

Definition whatsAppMessage (filename directory : string) : string :=
  "🎵 Check out this sound: " +:+ dq +:+ filename +:+ dq +:+ nl +:+ nl
  +:+ "Listen here: " +:+ fileUrlOf directory filename.

Definition shareToWhatsApp (filename directory : string) : M unit :=
  let message := encodeURIComponent (whatsAppMessage filename directory) in
  window_open ("https://wa.me/?text=" +:+ message) ;;
  closeModal.

Definition twitterMessage (filename directory : string) : string :=
  "🎵 Check out this awesome sound: " +:+ dq +:+ filename +:+ dq +:+ " "
  +:+ fileUrlOf directory filename.

Definition shareToTwitter (filename directory : string) : M unit :=
  let message := encodeURIComponent (twitterMessage filename directory) in
  window_open ("https://twitter.com/intent/tweet?text=" +:+ message) ;;
  closeModal.

End Methods.

(** The page-wide instance: [const audioShareManager = new AudioShareManager()]. *)
Definition audioShareManager (P : Platform) : AudioShareManager := constructor P.

(** *** User input on the manual-options surface *)

(** Where a click lands inside a modal: on the backdrop (the modal element
    itself), on the content box, or on the [k]-th button. *)
Inductive Target : Type :=
| OnBackdrop
| OnContent
| OnButton (k : nat).

(** What the [onclick] attribute of a button of [modal] runs. *)
Definition runHandler (P : Platform) (modal : Modal) (h : Handler) : M unit :=
  match h with
  | OnDownloadAndShare filename downloadUrl =>
      downloadAndShare filename downloadUrl
  | OnShareViaEmail filename downloadUrl =>
      shareViaEmail (audioShareManager P) filename downloadUrl
  | OnCopyFileLink directory filename =>
      copyFileLink P (audioShareManager P) directory filename
  | OnShareToWhatsApp filename directory =>
      shareToWhatsApp (audioShareManager P) filename directory
  | OnShareToTwitter filename directory =>
      shareToTwitter (audioShareManager P) filename directory
  | OnRemoveClosest => remove (modal_id modal)
  | OnInvalid =>
      throw (Error "SyntaxError: the onclick attribute is not a function body")
  | OnNone => ret tt
  end.

Definition compiles (h : Handler) : bool :=
  match h with OnInvalid => false | _ => true end.

(** The handlers that call one of the five share actions. *)
Definition isAction (h : Handler) : bool :=
  match h with
  | OnDownloadAndShare _ _ | OnShareViaEmail _ _ | OnCopyFileLink _ _
  | OnShareToWhatsApp _ _ | OnShareToTwitter _ _ => true
  | OnRemoveClosest | OnInvalid | OnNone => false
  end.

(** The button [k] of the modal with node [id] loses its handler. *)
Definition dropHandler (id k : nat) : M unit :=
  fun w =>
    (Normal tt,
     set_body
       (List.map
          (fun m =>
             if Nat.eqb (modal_id m) id
             then {| modal_id := modal_id m;
                     heading := heading m;
                     buttons :=
                       alter (fun b => {| label := label b; onclick := OnNone |})
                         k (buttons m);
                     listener_url := listener_url m |}
             else m)
          (body w))
       w).

(** The listener [showFileShareOptions] puts on the modal:
    [if (e.target === modal) { URL.revokeObjectURL(downloadUrl); modal.remove(); }] *)
Definition backdropListener (modal : Modal) (target : Target) : M unit :=
  match target with
  | OnBackdrop => revokeObjectURL (listener_url modal) ;; remove (modal_id modal)
  | _ => ret tt
  end.

(** A click inside the modal with node [id]: the inline handler of the
    button that was hit runs first (an exception it lets escape is
    reported and does not stop the event; an attribute that does not
    compile is reported at this first use and the button is left without
    handler), then the event bubbles to the listener of the modal. *)
Definition click (P : Platform) (id : nat) (target : Target) : M unit :=
  fun w =>
    match List.find (fun m => Nat.eqb (modal_id m) id) (body w) with
    | None => (Normal tt, w)
    | Some modal =>
        ((match target with
          | OnButton k =>
              match buttons modal !! k with
              | Some b =>
                  try_catch (runHandler P modal (onclick b))
                    (fun e => emit (EUncaught e)) ;;
                  if compiles (onclick b) then ret tt else dropHandler id k
              | None => ret tt
              end
          | _ => ret tt
          end) ;;
         backdropListener modal target) w
    end.

(** *** Reading the platform *)

(** The fetch of [url] yields no blob, for the reason [reason]: the
    request fails on the network, it is answered with a status that is
    not OK, or the body of the answer cannot be read. *)
Inductive FetchFails (P : Platform) (url : string) : JsError -> Prop :=
| NetworkFailure reason :
    fetch P url = Throw reason -> FetchFails P url reason
| StatusNotOk response :
    fetch P url = Normal response -> ok response = false ->
    FetchFails P url (Error "Failed to fetch audio file")
| BodyFailure response reason :
    fetch P url = Normal response -> ok response = true ->
    blob response = Throw reason -> FetchFails P url reason.

(** The fetch of [url] yields the blob [b]. *)
Definition FetchYields (P : Platform) (url : string) (b : Blob) : Prop :=
  exists response,
    fetch P url = Normal response /\ ok response = true /\ blob response = Normal b.

(** A computation that leaves the blob URL store as it finds it. *)
Definition KeepsBlobUrls {A} (m : M A) : Prop :=
  forall w, blob_urls (m w).2 = blob_urls w.

(** *** Reading a trace *)

Definition alerts (t : list Event) : list string :=
  omap (fun e => match e with EAlert m => Some m | _ => None end) t.

Definition shares (t : list Event) : list ShareData :=
  omap (fun e => match e with EShare d => Some d | _ => None end) t.

Definition clipboardWrites (t : list Event) : list string :=
  omap (fun e => match e with EClipboardWrite d => Some d | _ => None end) t.

Definition opened (t : list Event) : list string :=
  omap (fun e => match e with EWindowOpen u => Some u | _ => None end) t.

Definition downloads (t : list Event) : list (ObjectUrl * string) :=
  omap (fun e => match e with EDownload u n => Some (u, n) | _ => None end) t.

(** *** The page over time *)

(** The pending timers fire, in the order they were set (they all wait the
    same 500 ms); each callback is [() => alert(msg)]. *)
Definition runTimers : M unit :=
  fun w =>
    (Normal tt,
     {| body := body w; blob_urls := blob_urls w; next_url := next_url w;
        next_node := next_node w; clipboard := clipboard w; timers := [];
        trace := trace w ++ (EAlert <$> (timers w).*2) |}).

(** What happens on the page: a sound button calls [shareSound], the user
    clicks inside a modal, the timers fire. *)
Inductive Action : Type :=
| DoShare (filename directory : string)
| DoClick (id : nat) (target : Target)
| DoTimers.

Definition perform (P : Platform) (a : Action) : M unit :=
  match a with
  | DoShare filename directory => shareSound P filename directory
  | DoClick id target => click P id target
  | DoTimers => runTimers
  end.

(** The world after a sequence of actions, each one run to its end before
    the next. *)
Fixpoint session (P : Platform) (acts : list Action) (w : World) : World :=
  match acts with
  | [] => w
  | a :: rest => session P rest (perform P a w).2
  end.

(** The shape of the document and of the blob URL store that the code keeps:
    the open modals have distinct nodes and distinct blob URLs, both handed
    out earlier; the blob URL of an open modal is live; no blob URL is live
    that has not been handed out. *)
Record WellFormed (w : World) : Prop := {
  wf_ids : NoDup (modal_id <$> body w);
  wf_urls : NoDup (listener_url <$> body w);
  wf_modals :
    Forall (fun m => modal_id m < next_node w
                     /\ listener_url m < next_url w
                     /\ is_Some (blob_urls w !! listener_url m))
      (body w);
  wf_store : forall u, next_url w <= u -> blob_urls w !! u = None
}.

(** A computation that keeps the world well formed. *)
Definition KeepsWellFormed {A} (m : M A) : Prop :=
  forall w, WellFormed w -> WellFormed (m w).2.

(** The buttons of every open modal are the six the template writes, with
    the blob URL of the modal. *)
Definition AsWritten (w : World) : Prop :=
  Forall (fun m => exists filename directory,
                     buttons m = modalButtons filename directory (listener_url m))
    (body w).

Definition KeepsAsWritten {A} (m : M A) : Prop :=
  forall w, AsWritten w -> AsWritten (m w).2.

(** An action that is not a share request for a file name or a directory
    that is not plain. *)
Definition PlainShare (a : Action) : Prop :=
  match a with
  | DoShare filename directory => plain filename = true /\ plain directory = true
  | _ => True
  end.

End Share.

(** ** The offline cache: [src/service-worker.js] *)

Module ServiceWorker.

Definition CACHE_NAME : string := "vibeboard-cache-v1".

Definition urlsToCache : list string :=
  [ "/";
    "/index.html";
    "/icon-192.png";
    "/icon-512.png";
    "/sounds/gehaald.mp3";
    "/sounds/plopperdeplop.mp3";
    "/sounds/hallowki.mp3";
    "/sounds/toenplots.mp3";
    "/sounds/luiheeftaids.mp3";
    "/sounds/ikrookeenpijp.mp3";
    "/sounds/eruit.mp3";
    "/sounds/behalvelui.mp3";
    "/sounds/dommerik.mp3";
    "/sounds/seksmetsmal.mp3";
    "/sounds/klus!.mp3";
    "/sounds/geenaids.mp3" ].

(** A request: its URL, its method and its header list, the names in lower
    case. *)
Record Request := {
  url : string;
  method : string;
  headers : list (string * string)
}.

(** A response: its status, the field names its [Vary] header lists, in
    lower case (none without the header; a name may be the asterisk), and
    its body. *)
Record Response := { status : nat; vary : list string; payload : string }.

(** [response.ok]: a status in the range 200-299. *)
Definition ok (r : Response) : bool :=
  Nat.leb 200 (status r) && Nat.leb (status r) 299.

(** A [Cache]: its request/response pairs, oldest first. *)
Abbreviation Cache := (list (Request * Response)).

(** The [CacheStorage] [caches]: the named caches in creation order. *)
Abbreviation CacheStorage := (list (string * list (Request * Response))).

(** [new Request(u)]: a GET without headers of its own. *)
Definition getRequest (u : string) : Request :=
  {| url := u; method := "GET"; headers := [] |}.

(** The URL without its fragment. *)
Fixpoint withoutFragment (u : string) : string :=
  match u with
  | EmptyString => EmptyString
  | String c rest =>
      if Ascii.eqb c "#" then EmptyString else String c (withoutFragment rest)
  end.

(** The combined value of the header [name]: its values joined by a comma
    and a space, or nothing when the header is absent. *)
Definition combinedValue (name : string) (hs : list (string * string))
  : option string :=
  match List.filter (fun kv => String.eqb kv.1 name) hs with
  | [] => None
  | kv :: rest => Some (fold_left (fun acc kv' => acc +:+ ", " +:+ kv'.2) rest kv.2)
  end.

(** Whether a request matches a cached pair, as the Cache API decides it
    without options: the request is a GET, the URLs are equal once the
    fragments are left out, and for every field name the cached response
    varies on, the name is not the asterisk and the request and the cached
    request agree on that header. *)
Definition requestMatches (query : Request) (cached : Request * Response) : bool :=
  String.eqb (method query) "GET"
  && String.eqb (withoutFragment (url query)) (withoutFragment (url cached.1))
  && forallb
       (fun name =>
          negb (String.eqb name "*")
          && bool_decide (combinedValue name (headers query)
                          = combinedValue name (headers cached.1)))
       (vary cached.2).

(** The pairs of a batch do not replace one another: no request matches a
    pair that comes before it. *)
Fixpoint Apart (ops : list (Request * Response)) : Prop :=
  match ops with
  | [] => True
  | op :: rest =>
      Forall (fun later => requestMatches later.1 op = false) rest /\ Apart rest
  end.

Section Worker.
(** The origin the worker is registered under (an [http] or [https]
    origin, as a worker has), and the network: the response to a request,
    or [None] for a network error. *)
Variable origin : string.
Variable network : Request -> option Response.

(** The request [cache.addAll] makes for a path of the manifest: a GET
    of the path resolved against the worker's origin. *)
Definition requestOf (path : string) : Request :=
  getRequest (origin +:+ path).

Fixpoint lookupCache (name : string) (cs : CacheStorage) : option Cache :=
  match cs with
  | [] => None
  | (n, c) :: rest => if String.eqb n name then Some c else lookupCache name rest
  end.

Fixpoint storeCache (name : string) (c : Cache) (cs : CacheStorage) : CacheStorage :=
  match cs with
  | [] => [(name, c)]
  | (n, c0) :: rest =>
      if String.eqb n name then (n, c) :: rest
      else (n, c0) :: storeCache name c rest
  end.

(** [caches.open(name)]: the cache of that name, created empty when
    there is none. *)
Definition caches_open (name : string) (cs : CacheStorage) : Cache * CacheStorage :=
  match lookupCache name cs with
  | Some c => (c, cs)
  | None => ([], cs ++ [(name, [])])
  end.

(** What [cache.addAll] accepts as an answer: an [ok] status other than
    206 and no asterisk in [Vary]. *)
Definition cacheable (r : Response) : bool :=
  ok r && negb (Nat.eqb (status r) 206)
  && negb (existsb (String.eqb "*") (vary r)).

(** The fetches of [cache.addAll]: every request must get an answer the
    cache accepts, otherwise the whole call rejects. *)
Fixpoint fetchAll (paths : list string) : option (list (Request * Response)) :=
  match paths with
  | [] => Some []
  | p :: rest =>
      match network (requestOf p) with
      | Some r =>
          if cacheable r
          then match fetchAll rest with
               | Some rs => Some ((requestOf p, r) :: rs)
               | None => None
               end
          else None
      | None => None
      end
  end.

(** [cache.put]: the pairs the request matches are dropped and the new pair
    is added at the end. *)
Definition cache_put (c : Cache) (op : Request * Response) : Cache :=
  List.filter (fun e => negb (requestMatches op.1 e)) c ++ [op].

(** The batch of [cache.addAll]: the pairs are put in order; a request that
    matches a pair the same batch has already added makes the batch fail. *)
Fixpoint batchPut (ops added : list (Request * Response)) (c : Cache)
  : option Cache :=
  match ops with
  | [] => Some c
  | op :: rest =>
      if existsb (requestMatches op.1) added then None
      else batchPut rest (added ++ [op]) (cache_put c op)
  end.

(** [cache.addAll(paths)]: all responses are stored, or none is. *)
Definition addAll (paths : list string) (c : Cache) : option Cache :=
  match fetchAll paths with
  | Some ops => batchPut ops [] c
  | None => None
  end.

(** [cache.match(request)]: the response of the oldest pair the request
    matches. *)
Definition cache_match (c : Cache) (request : Request) : option Response :=
  option_map snd (List.find (requestMatches request) c).

(** [caches.match(request)]: the first match over the caches in
    creation order. *)
Fixpoint caches_match (cs : CacheStorage) (request : Request) : option Response :=
  match cs with
  | [] => None
  | (_, c) :: rest =>
      match cache_match c request with
      | Some r => Some r
      | None => caches_match rest request
      end
  end.

(** The install listener:
    [caches.open(CACHE_NAME).then(cache => cache.addAll(urlsToCache))].
    The boolean tells whether the promise given to [waitUntil] is
    fulfilled. *)
Definition onInstall (cs : CacheStorage) : bool * CacheStorage :=
  let '(cache, cs1) := caches_open CACHE_NAME cs in
  match addAll urlsToCache cache with
  | Some cache' => (true, storeCache CACHE_NAME cache' cs1)
  | None => (false, cs1)
  end.

(** What [event.respondWith] is given by the fetch listener. *)
Inductive Served : Type :=
| FromCache (response : Response)
| FromNetwork (answer : option Response).

(** The fetch listener:
    [caches.match(event.request).then(response => response || fetch(event.request))]. *)
Definition onFetch (cs : CacheStorage) (request : Request) : Served :=
  match caches_match cs request with
  | Some response => FromCache response
  | None => FromNetwork (network request)
  end.

End Worker.

End ServiceWorker.

(** ** Sample platforms *)

Module Samples.
Import Share.

(** A stand-in for the parsers of the platform on the values the model
    leaves to them: the heading as written and six buttons of which only
    Close has a handler that compiles.  This is what a browser makes of a
    file name that holds an apostrophe followed by a letter, as in [it's];
    the examples below do not reach it. *)
Definition brokenButtons (filename directory : string) (u : ObjectUrl)
  : string * list Button :=
  ("Share " +:+ Js.dq +:+ filename +:+ Js.dq,
   [ {| label := "📥 Download File & Share Manually"; onclick := OnInvalid |};
     {| label := "📧 Share via Email"; onclick := OnInvalid |};
     {| label := "🔗 Copy File Link"; onclick := OnInvalid |};
     {| label := "💬 WhatsApp"; onclick := OnInvalid |};
     {| label := "🐦 Twitter"; onclick := OnInvalid |};
     {| label := "Close"; onclick := OnRemoveClosest |} ]).

Definition gehaaldBlob : Blob :=
  {| blob_bytes := [73; 68; 51; 4]%N; blob_type := "audio/mpeg" |}.

(** A site that serves [sounds/gehaald.mp3] and answers 404 elsewhere. *)
Definition siteFetch (url : string) : Completion Response :=
  if String.eqb url "sounds/gehaald.mp3"
  then Normal {| ok := true; blob := Normal gehaaldBlob |}
  else Normal {| ok := false;
                 blob := Normal {| blob_bytes := []; blob_type := "text/html" |} |}.

(** A desktop browser: no share sheet, a working clipboard. *)
Definition desktop : Platform :=
  {| location_origin := "https://vibeboard.example";
     fetch := siteFetch;
     navigator_share := None;
     navigator_canShare := None;
     navigator_clipboard := Some (fun _ => Normal tt);
     innerHTML_of := brokenButtons |}.

(** A phone whose share sheet takes files. *)
Definition phone : Platform :=
  {| location_origin := "https://vibeboard.example";
     fetch := siteFetch;
     navigator_share := Some (fun _ => Normal tt);
     navigator_canShare :=
       Some (fun d => match files d with Some _ => true | None => false end);
     navigator_clipboard := Some (fun _ => Normal tt);
     innerHTML_of := brokenButtons |}.

(** A browser whose share sheet is always dismissed and whose clipboard
    refuses the write. *)
Definition refusing : Platform :=
  {| location_origin := "https://vibeboard.example";
     fetch := siteFetch;
     navigator_share := Some (fun _ => Throw (Error "Share canceled"));
     navigator_canShare := None;
     navigator_clipboard := Some (fun _ => Throw (Error "Write permission denied."));
     innerHTML_of := brokenButtons |}.

(** A browser without network. *)
Definition offline : Platform :=
  {| location_origin := "https://vibeboard.example";
     fetch := fun _ => Throw (Error "Failed to fetch");
     navigator_share := None;
     navigator_canShare := None;
     navigator_clipboard := None;
     innerHTML_of := brokenButtons |}.

(** A desktop browser on a site that serves every sound it is asked for. *)
Definition anySound : Platform :=
  {| location_origin := "https://vibeboard.example";
     fetch := fun _ => Normal {| ok := true; blob := Normal gehaaldBlob |};
     navigator_share := None;
     navigator_canShare := None;
     navigator_clipboard := Some (fun _ => Normal tt);
     innerHTML_of := brokenButtons |}.

(** A network on which every request is answered 200. *)
Definition online (request : ServiceWorker.Request) : option ServiceWorker.Response :=
  Some {| ServiceWorker.status := 200;
          ServiceWorker.vary := [];
          ServiceWorker.payload := ServiceWorker.url request |}.

(** A network on which one sound of the manifest is missing. *)
Definition oneMissing (request : ServiceWorker.Request) : option ServiceWorker.Response :=
  if String.eqb (ServiceWorker.url request) "https://vibeboard.example/sounds/klus!.mp3"
  then Some {| ServiceWorker.status := 404;
               ServiceWorker.vary := [];
               ServiceWorker.payload := "Not Found" |}
  else online request.

(** A network that answers one sound of the manifest with a part of it
    (206 Partial Content). *)
Definition onePartial (request : ServiceWorker.Request) : option ServiceWorker.Response :=
  if String.eqb (ServiceWorker.url request) "https://vibeboard.example/sounds/klus!.mp3"
  then Some {| ServiceWorker.status := 206;
               ServiceWorker.vary := [];
               ServiceWorker.payload := "ID3" |}
  else online request.

(** No network at all. *)
Definition down (request : ServiceWorker.Request) : option ServiceWorker.Response :=
  None.

(** The navigation to the anchor [top] of the root document. *)
Definition toAnchor : ServiceWorker.Request :=
  {| ServiceWorker.url := "https://vibeboard.example/index.html#top";
     ServiceWorker.method := "GET";
     ServiceWorker.headers := [("accept", "text/html")] |}.

End Samples.

(** * Properties *)

(** ** Strings *)

(** stdpp freezes [String.append] under [simpl]; the proofs below compute
    with it. *)
#[local] Arguments String.append : simpl nomatch.

Section StringFacts.
Import Js.

Lemma append_nil_r (s : string) : s +:+ EmptyString = s.
Proof. induction s as [|c s IH]; simpl; [reflexivity | now rewrite IH]. Qed.

Lemma append_assoc (a b c : string) : (a +:+ b) +:+ c = a +:+ (b +:+ c).
Proof. induction a as [|x a IH]; simpl; [reflexivity | now rewrite IH]. Qed.

Lemma encodeURIComponent_app (a b : string) :
  encodeURIComponent (a +:+ b) = encodeURIComponent a +:+ encodeURIComponent b.
Proof.
  induction a as [|x a IH]; simpl; [reflexivity |].
  now rewrite IH, append_assoc.
Qed.

Lemma contains_refl (s : string) : contains s s.
Proof.
  exists EmptyString, EmptyString.
  change (s = s +:+ EmptyString). now rewrite append_nil_r.
Qed.

Lemma contains_app_l (a t s : string) : contains t s -> contains (a +:+ t) s.
Proof.
  intros (p & q & ->). exists (a +:+ p), q. now rewrite append_assoc.
Qed.

Lemma contains_app_r (t b s : string) : contains t s -> contains (t +:+ b) s.
Proof.
  intros (p & q & ->). exists p, (q +:+ b). now rewrite !append_assoc.
Qed.

Lemma contains_encoded (t s : string) :
  contains t s -> contains (encodeURIComponent t) (encodeURIComponent s).
Proof.
  intros (p & q & ->).
  exists (encodeURIComponent p), (encodeURIComponent q).
  now rewrite !encodeURIComponent_app.
Qed.

Lemma chars_app (a b : string) :
  String.list_ascii_of_string (a +:+ b)
  = String.list_ascii_of_string a ++ String.list_ascii_of_string b.
Proof.
  induction a as [| c a IH]; simpl; [reflexivity | now rewrite IH].
Qed.

Lemma percentEncode_chars (c x : ascii) :
  x ∈ String.list_ascii_of_string (percentEncode c) ->
  x = "%"%char \/ unreserved x = true.
Proof.
  destruct c as [[] [] [] [] [] [] [] []]; cbn;
    rewrite !elem_of_cons, elem_of_nil;
    intros [-> | [-> | [-> | []]]]; auto.
Qed.

(** Every character [encodeURIComponent] writes is unreserved or [%]. *)
Lemma encodeURIComponent_chars (s : string) (x : ascii) :
  x ∈ chars (encodeURIComponent s) -> x = "%"%char \/ unreserved x = true.
Proof.
  unfold chars. induction s as [| c s IH]; cbn [encodeURIComponent]; intros Hin.
  - now apply elem_of_nil in Hin.
  - rewrite chars_app in Hin. apply elem_of_app in Hin as [Hin | Hin]; [| auto].
    destruct (unreserved c) eqn:Hc.
    + cbn in Hin. apply elem_of_cons in Hin as [-> | Hin]; [auto |].
      now apply elem_of_nil in Hin.
    + now apply percentEncode_chars in Hin.
Qed.

Lemma decode_percentEncode (c : ascii) (rest : string) :
  decodeURIComponent (percentEncode c +:+ rest)
  = option_map (String c) (decodeURIComponent rest).
Proof. destruct c as [[] [] [] [] [] [] [] []]; reflexivity. Qed.

Lemma decode_unreserved (c : ascii) (rest : string) :
  unreserved c = true ->
  decodeURIComponent (String c rest) = option_map (String c) (decodeURIComponent rest).
Proof.
  intros H. cbn [decodeURIComponent].
  destruct (Ascii.eqb c "%") eqn:E; [| reflexivity].
  apply Ascii.eqb_eq in E. subst c. discriminate H.
Qed.

(** What [encodeURIComponent] writes, [decodeURIComponent] reads back. *)
Lemma decode_encode (s : string) :
  decodeURIComponent (encodeURIComponent s) = Some s.
Proof.
  induction s as [| c s IH]; [reflexivity |]. cbn [encodeURIComponent].
  destruct (unreserved c) eqn:Hc.
  - change (String c EmptyString +:+ encodeURIComponent s)
      with (String c (encodeURIComponent s)).
    now rewrite (decode_unreserved c _ Hc), IH.
  - now rewrite decode_percentEncode, IH.
Qed.

End StringFacts.

Create HintDb strs.
#[local] Hint Resolve contains_refl contains_app_l contains_app_r : strs.

Example encodeURIComponent_sample :
  Js.encodeURIComponent "https://a.b/sounds/klus!.mp3 é"
  = "https%3A%2F%2Fa.b%2Fsounds%2Fklus!.mp3%20%C3%A9".
Proof. reflexivity. Qed.

(** ** The share resolver *)

Section ShareFacts.
Import Js Share.

Lemma record_record (a b : list Event) (w : World) :
  record b (record a w) = record (a ++ b) w.
Proof. unfold record; simpl. now rewrite <- app_assoc. Qed.

Lemma errorText_names (filename error : string) :
  contains (errorText filename error) filename
  /\ contains (errorText filename error) error.
Proof.
  split.
  - exists ("❌ Failed to share " +:+ dq),
      (dq +:+ nl +:+ nl +:+ "Error: " +:+ error).
    reflexivity.
  - exists ("❌ Failed to share " +:+ dq +:+ filename +:+ dq +:+ nl +:+ nl
            +:+ "Error: "), EmptyString.
    unfold errorText. now rewrite append_nil_r, !append_assoc.
Qed.

(** [fetchAudioFile] throws the reason of a failed fetch, having done
    nothing but the request. *)
Lemma fetchAudioFile_fails (P : Platform) (directory filename : string)
      (reason : JsError) (w : World) :
  FetchFails P (directory +:+ "/" +:+ filename +:+ ".mp3") reason ->
  fetchAudioFile P directory filename w
  = (Throw reason,
     record [EFetch (directory +:+ "/" +:+ filename +:+ ".mp3")] w).
Proof.
  intros H. unfold fetchAudioFile, do_fetch, bind, emit, await, throw.
  destruct H as [reason H | response H Hok | response reason H Hok Hblob];
    rewrite H; [reflexivity | |]; rewrite Hok; [reflexivity |].
  cbn [negb]. now rewrite Hblob.
Qed.

Lemma fetchAudioFile_yields (P : Platform) (directory filename : string)
      (b : Blob) (w : World) :
  FetchYields P (directory +:+ "/" +:+ filename +:+ ".mp3") b ->
  fetchAudioFile P directory filename w
  = (Normal b,
     record [EFetch (directory +:+ "/" +:+ filename +:+ ".mp3")] w).
Proof.
  intros (response & H & Hok & Hblob).
  unfold fetchAudioFile, do_fetch, bind, emit, await, throw.
  now rewrite H, Hok, Hblob.
Qed.

(** C1. When the fetch of [{directory}/{identifier}.mp3] fails (network
    failure, non-OK status, unreadable body), [shareSound] ends normally
    and all it has done is: the request, the console report, and one
    alert, whose text contains the identifier and the reason of the
    failure.  No native share is invoked, no modal enters the document
    and no blob URL is created. *)
Theorem shareSound_fetch_failure (P : Platform) (filename directory : string)
        (reason : JsError) (w : World) :
  FetchFails P (directory +:+ "/" +:+ filename +:+ ".mp3") reason ->
  let msg := errorText filename (message reason) in
  let w' := (shareSound P filename directory w).2 in
  shareSound P filename directory w
  = (Normal tt,
     record [EFetch (directory +:+ "/" +:+ filename +:+ ".mp3");
             EConsoleError "Share failed:" reason;
             EAlert msg] w)
  /\ shares (trace w') = shares (trace w)
  /\ alerts (trace w') = alerts (trace w) ++ [msg]
  /\ body w' = body w
  /\ blob_urls w' = blob_urls w
  /\ contains msg filename
  /\ contains msg (message reason).
Proof.
  intros H msg w'.
  assert (Hrun : shareSound P filename directory w
          = (Normal tt,
             record [EFetch (directory +:+ "/" +:+ filename +:+ ".mp3");
                     EConsoleError "Share failed:" reason;
                     EAlert msg] w)).
  { unfold shareSound, try_catch, bind at 1.
    rewrite (fetchAudioFile_fails _ _ _ _ _ H).
    unfold bind, console_error, showErrorMessage, alert, emit.
    now rewrite !record_record. }
  subst w'. rewrite Hrun. cbn [snd record trace body blob_urls].
  unfold shares, alerts. rewrite !omap_app. cbn [omap]. rewrite app_nil_r.
  destruct (errorText_names filename (message reason)) as [Hf Hr].
  repeat split; auto.
Qed.

Lemma shareSound_fetch_failure_witness :
  alerts (trace (shareSound Samples.desktop "missing" "sounds" initial).2)
  = [errorText "missing" "Failed to fetch audio file"]
  /\ body (shareSound Samples.desktop "missing" "sounds" initial).2 = [].
Proof.
  pose proof (shareSound_fetch_failure Samples.desktop "missing" "sounds"
                (Error "Failed to fetch audio file") initial) as H.
  destruct H as (_ & _ & Ha & Hb & _).
  - eapply StatusNotOk; reflexivity.
  - split; [exact Ha | exact Hb].
Defined.

(** *** The native tier *)

Lemma fetch_cases (P : Platform) (url : string) :
  (exists reason, FetchFails P url reason) \/ (exists b, FetchYields P url b).
Proof.
  destruct (fetch P url) as [response | reason] eqn:H.
  - destruct (ok response) eqn:Hok.
    + destruct (blob response) as [b | reason] eqn:Hb.
      * right. exists b, response. auto.
      * left. exists reason. eapply BodyFailure; eauto.
    + left. eexists. eapply StatusNotOk; eauto.
  - left. exists reason. now apply NetworkFailure.
Qed.

Lemma tryNativeFileShare_absent (P : Platform) (filename : string) (b : Blob)
      (w : World) :
  navigator_share P = None ->
  tryNativeFileShare P filename b w = (Normal false, w).
Proof. intros H. unfold tryNativeFileShare. now rewrite H. Qed.

(** With a share sheet, exactly one [navigator.share] call is made; its
    argument carries the file when [canShare] accepts it and is text-only
    otherwise, and the outcome of the call is the result. *)
Lemma tryNativeFileShare_present (P : Platform) (filename : string) (b : Blob)
      (share : ShareData -> Completion unit) (w : World) :
  navigator_share P = Some share ->
  let file := audioFile filename b in
  let d :=
    if canShare P {| title := None; text := None; files := Some [file] |}
    then {| title := Some ("Vibeboard Sound: " +:+ filename);
            text := Some "Check out this sound from Vibeboard!";
            files := Some [file] |}
    else {| title := Some ("Vibeboard Sound: " +:+ filename);
            text := Some ("Check out this sound from Vibeboard: "
                          +:+ dq +:+ filename +:+ dq);
            files := None |} in
  tryNativeFileShare P filename b w
  = match share d with
    | Normal _ => (Normal true, record [EShare d] w)
    | Throw e =>
        (Normal false, record [EShare d; EConsoleLog "Native share failed:" e] w)
    end.
Proof.
  intros H file d. unfold tryNativeFileShare. rewrite H.
  unfold try_catch, do_share, console_log, emit, await, ret, bind.
  fold file. subst d.
  destruct (canShare P _); destruct (share _) as [[] | e];
    rewrite ?record_record; reflexivity.
Qed.

Lemma shareSound_fetched (P : Platform) (filename directory : string) (b : Blob)
      (w : World) :
  FetchYields P (directory +:+ "/" +:+ filename +:+ ".mp3") b ->
  shareSound P filename directory w
  = match tryNativeFileShare P filename b
            (record [EFetch (directory +:+ "/" +:+ filename +:+ ".mp3")] w) with
    | (Normal true, w1) => (Normal tt, w1)
    | (Normal false, w1) => showFileShareOptions P filename directory b w1
    | (Throw e, w1) =>
        (console_error "Share failed:" e ;;
         showErrorMessage filename (message e))%js w1
    end.
Proof.
  intros H. unfold shareSound, try_catch, bind at 1.
  rewrite (fetchAudioFile_yields _ _ _ _ _ H).
  unfold bind at 1.
  destruct (tryNativeFileShare _ _ _ _) as [[[] | e] w1]; reflexivity.
Qed.

(** C3. After a successful fetch, on a platform that has a share sheet:
    when the capability check accepts the file, [navigator.share] is
    called once, with a title, a text and the single file
    [{identifier}.mp3] of type [audio/mpeg] made of the fetched blob; when
    the check is missing or refuses the file, [navigator.share] is called
    once with a title and a text and no file. *)
Theorem shareSound_native_share (P : Platform) (filename directory : string)
        (b : Blob) (share : ShareData -> Completion unit) (w : World) :
  FetchYields P (directory +:+ "/" +:+ filename +:+ ".mp3") b ->
  navigator_share P = Some share ->
  let file := {| file_bits := [b];
                 file_name := filename +:+ ".mp3";
                 file_type := "audio/mpeg" |} in
  let w' := (shareSound P filename directory w).2 in
  (canShare P {| title := None; text := None; files := Some [file] |} = true ->
   shares (trace w')
   = shares (trace w)
     ++ [ {| title := Some ("Vibeboard Sound: " +:+ filename);
             text := Some "Check out this sound from Vibeboard!";
             files := Some [file] |} ])
  /\ (canShare P {| title := None; text := None; files := Some [file] |} = false ->
      shares (trace w')
      = shares (trace w)
        ++ [ {| title := Some ("Vibeboard Sound: " +:+ filename);
                text := Some ("Check out this sound from Vibeboard: "
                              +:+ dq +:+ filename +:+ dq);
                files := None |} ]).
Proof.
  intros Hf Hs file w'. subst w'.
  rewrite (shareSound_fetched _ _ _ _ _ Hf).
  rewrite (tryNativeFileShare_present _ _ _ _ _ Hs).
  change (audioFile filename b) with file.
  split; intros Hc; rewrite Hc;
    (destruct (share _) as [[] | e];
     [ | unfold showFileShareOptions, createElement, createObjectURL,
         appendChild, emit, set_body, bind ];
     cbn [snd record trace]; unfold shares; rewrite !omap_app;
     cbn [omap]; rewrite ?app_nil_r; reflexivity).
Qed.

Lemma shareSound_native_share_witness :
  shares (trace (shareSound Samples.phone "gehaald" "sounds" initial).2)
  = [ {| title := Some "Vibeboard Sound: gehaald";
         text := Some "Check out this sound from Vibeboard!";
         files := Some [ {| file_bits := [Samples.gehaaldBlob];
                            file_name := "gehaald.mp3";
                            file_type := "audio/mpeg" |} ] |} ].
Proof.
  pose proof (shareSound_native_share Samples.phone "gehaald" "sounds"
                Samples.gehaaldBlob (fun _ => Normal tt) initial) as H.
  destruct H as [H _].
  - exists {| ok := true; blob := Normal Samples.gehaaldBlob |}.
    repeat split; reflexivity.
  - reflexivity.
  - exact (H eq_refl).
Defined.

(** *** The manual tier *)

(** For a plain file name and directory the content box holds the heading
    and the buttons of the template as written. *)
Lemma renderSurface_plain (P : Platform) (filename directory : string)
      (u : ObjectUrl) :
  plain filename = true -> plain directory = true ->
  renderSurface P filename directory u
  = ("Share " +:+ dq +:+ filename +:+ dq, modalButtons filename directory u).
Proof. intros Hf Hd. unfold renderSurface. now rewrite Hf, Hd. Qed.

Lemma showFileShareOptions_run (P : Platform) (filename directory : string)
      (b : Blob) (w : World) :
  showFileShareOptions P filename directory b w
  = (Normal tt,
     {| body := body w
                ++ [ {| modal_id := next_node w;
                        heading := (renderSurface P filename directory (next_url w)).1;
                        buttons := (renderSurface P filename directory (next_url w)).2;
                        listener_url := next_url w |} ];
        blob_urls := <[next_url w := b]> (blob_urls w);
        next_url := S (next_url w);
        next_node := S (next_node w);
        clipboard := clipboard w;
        timers := timers w;
        trace := trace w ++ [ECreateObjectURL (next_url w); EAppendModal (next_node w)]
     |}).
Proof.
  unfold showFileShareOptions, createElement, createObjectURL, appendChild,
    emit, record, set_body, bind.
  cbn [body blob_urls next_url next_node clipboard timers trace modal_id].
  now rewrite <- app_assoc.
Qed.

(** C4 (as amended). For a plain file name and directory (no control
    character, double quote, apostrophe, backslash, ampersand, [<] or [>]):
    after a successful fetch, when there is no share sheet or every call of
    it is rejected, [shareSound] ends normally without any alert, and the
    document gains one modal whose buttons hold the five actions (download
    with instructions, email, copy link, WhatsApp, Twitter) followed by
    Close; the blob URL the modal works with is live. *)
Theorem shareSound_demotes_to_manual_options
        (P : Platform) (filename directory : string) (b : Blob) (w : World) :
  plain filename = true ->
  plain directory = true ->
  FetchYields P (directory +:+ "/" +:+ filename +:+ ".mp3") b ->
  (navigator_share P = None
   \/ exists share, navigator_share P = Some share
                    /\ forall d, exists e, share d = Throw e) ->
  let r := shareSound P filename directory w in
  let u := next_url w in
  r.1 = Normal tt
  /\ alerts (trace r.2) = alerts (trace w)
  /\ body r.2
     = body w ++ [ {| modal_id := next_node w;
                      heading := "Share " +:+ dq +:+ filename +:+ dq;
                      buttons := modalButtons filename directory u;
                      listener_url := u |} ]
  /\ onclick <$> modalButtons filename directory u
     = [ OnDownloadAndShare filename u;
         OnShareViaEmail filename u;
         OnCopyFileLink directory filename;
         OnShareToWhatsApp filename directory;
         OnShareToTwitter filename directory;
         OnRemoveClosest ]
  /\ blob_urls r.2 !! u = Some b.
Proof.
  intros Hpf Hpd Hf Hs r u. subst r u.
  rewrite (shareSound_fetched _ _ _ _ _ Hf).
  assert (Hn : exists evs,
             tryNativeFileShare P filename b
               (record [EFetch (directory +:+ "/" +:+ filename +:+ ".mp3")] w)
             = (Normal false, record evs w) /\ alerts evs = []).
  { destruct Hs as [Hs | (share & Hs & Hrej)].
    - rewrite (tryNativeFileShare_absent _ _ _ _ Hs). eexists; split; reflexivity.
    - rewrite (tryNativeFileShare_present _ _ _ _ _ Hs).
      match goal with |- context [share ?d] => destruct (Hrej d) as [e ->] end.
      rewrite record_record. eexists; split; reflexivity. }
  destruct Hn as (evs & -> & Hev).
  rewrite showFileShareOptions_run.
  cbn [fst snd body blob_urls next_url next_node trace record].
  rewrite (renderSurface_plain P filename directory (next_url w) Hpf Hpd).
  cbn [fst snd].
  repeat split; try reflexivity.
  - unfold alerts in *. rewrite !omap_app, Hev. cbn [omap].
    now rewrite !app_nil_r.
  - apply lookup_insert_eq.
Qed.

Lemma shareSound_demotes_to_manual_options_witness :
  (fun modal => onclick <$> buttons modal)
    <$> body (shareSound Samples.desktop "gehaald" "sounds" initial).2
  = [ [ OnDownloadAndShare "gehaald" 0;
        OnShareViaEmail "gehaald" 0;
        OnCopyFileLink "sounds" "gehaald";
        OnShareToWhatsApp "gehaald" "sounds";
        OnShareToTwitter "gehaald" "sounds";
        OnRemoveClosest ] ]
  /\ alerts (trace (shareSound Samples.desktop "gehaald" "sounds" initial).2) = [].
Proof.
  pose proof (shareSound_demotes_to_manual_options Samples.desktop "gehaald"
                "sounds" Samples.gehaaldBlob initial eq_refl eq_refl) as H.
  destruct H as (_ & Ha & Hb & _).
  - exists {| ok := true; blob := Normal Samples.gehaaldBlob |}.
    repeat split; reflexivity.
  - left; reflexivity.
  - split; [rewrite Hb; reflexivity | exact Ha].
Defined.

(** C4 (as stated) fails.  On a desktop browser without share sheet, the
    sound [x<!--] of the directory [sounds] is fetched and the surface is
    shown, but the [<!--] spliced into the heading opens a comment that
    nothing closes: the heading stops there and the modal has no button,
    so none of the five actions is present. *)
Lemma manual_options_lost_in_comment :
  FetchYields Samples.anySound ("sounds" +:+ "/" +:+ "x<!--" +:+ ".mp3")
    Samples.gehaaldBlob
  /\ navigator_share Samples.anySound = None
  /\ (shareSound Samples.anySound "x<!--" "sounds" initial).1 = Normal tt
  /\ (fun modal => (heading modal, onclick <$> buttons modal))
       <$> body (shareSound Samples.anySound "x<!--" "sounds" initial).2
     = [ ("Share " +:+ dq +:+ "x", []) ]
  /\ ~ (exists modal,
          modal ∈ body (shareSound Samples.anySound "x<!--" "sounds" initial).2
          /\ OnCopyFileLink "sounds" "x<!--" ∈ onclick <$> buttons modal).
Proof.
  split; [| split; [| split; [| split]]]; try reflexivity.
  - exists {| ok := true; blob := Normal Samples.gehaaldBlob |}.
    repeat split; reflexivity.
  - intros (modal & Hin & Hb).
    change (body (shareSound Samples.anySound "x<!--" "sounds" initial).2)
      with [ {| modal_id := 0; heading := "Share " +:+ dq +:+ "x";
                buttons := []; listener_url := 0 |} ] in Hin.
    apply elem_of_cons in Hin as [-> | Hin]; [| now apply elem_of_nil in Hin].
    cbn in Hb. now apply elem_of_nil in Hb.
Qed.

(** What a failed fetch leaves of [shareSound]. *)
Lemma shareSound_failed_run (P : Platform) (filename directory : string)
      (reason : JsError) (w : World) :
  FetchFails P (directory +:+ "/" +:+ filename +:+ ".mp3") reason ->
  shareSound P filename directory w
  = (Normal tt,
     record [EFetch (directory +:+ "/" +:+ filename +:+ ".mp3");
             EConsoleError "Share failed:" reason;
             EAlert (errorText filename (message reason))] w).
Proof.
  intros H. unfold shareSound, try_catch, bind at 1.
  rewrite (fetchAudioFile_fails _ _ _ _ _ H).
  unfold bind, console_error, showErrorMessage, alert, emit.
  now rewrite !record_record.
Qed.

(** C5. [shareSound] never throws to its caller, whatever the platform
    does.  It ends in one of three ways: a native share was invoked and
    accepted; the manual-options modal was added to the document; or one
    error alert naming the identifier was shown.  In the first two no
    alert is shown. *)
Theorem shareSound_never_throws (P : Platform) (filename directory : string)
        (w : World) :
  let r := shareSound P filename directory w in
  r.1 = Normal tt
  /\ ((exists d, shares (trace r.2) = shares (trace w) ++ [d]
                 /\ alerts (trace r.2) = alerts (trace w)
                 /\ body r.2 = body w)
      \/ (exists modal, body r.2 = body w ++ [modal]
                        /\ alerts (trace r.2) = alerts (trace w))
      \/ (exists reason,
            alerts (trace r.2)
            = alerts (trace w) ++ [errorText filename (message reason)]
            /\ shares (trace r.2) = shares (trace w)
            /\ body r.2 = body w)).
Proof.
  intros r. subst r.
  destruct (fetch_cases P (directory +:+ "/" +:+ filename +:+ ".mp3"))
    as [[reason Hf] | [b Hf]].
  - rewrite (shareSound_failed_run P filename directory reason w Hf).
    cbn [fst snd record trace body]. split; [reflexivity |].
    right; right. exists reason. unfold shares, alerts.
    rewrite !omap_app. cbn [omap]. rewrite app_nil_r. auto.
  - rewrite (shareSound_fetched _ _ _ _ _ Hf).
    destruct (navigator_share P) as [share |] eqn:Hs.
    + rewrite (tryNativeFileShare_present _ _ _ _ _ Hs).
      match goal with |- context [share ?d] => destruct (share d) as [[] | e] end;
        rewrite record_record.
      * split; [reflexivity |]. left. eexists.
        cbn [snd record trace body]. unfold shares, alerts.
        rewrite !omap_app. cbn [omap]. rewrite !app_nil_r. auto.
      * rewrite showFileShareOptions_run. split; [reflexivity |].
        right; left. eexists. cbn [snd record trace body].
        split; [reflexivity |]. unfold alerts.
        rewrite !omap_app. cbn [omap]. now rewrite !app_nil_r.
    + rewrite (tryNativeFileShare_absent _ _ _ _ Hs).
      rewrite showFileShareOptions_run. split; [reflexivity |].
      right; left. eexists. cbn [snd record trace body].
      split; [reflexivity |]. unfold alerts.
      rewrite !omap_app. cbn [omap]. now rewrite !app_nil_r.
Qed.

(** *** Closing the manual-options surface *)

Lemma remove_present (m : Modal) (rest : list Modal) (w : World) :
  body w = m :: rest ->
  remove (modal_id m) w
  = (Normal tt,
     record [ERemoveModal (modal_id m)]
       (set_body (List.filter (fun x => negb (Nat.eqb (modal_id x) (modal_id m))) rest) w)).
Proof.
  intros H. unfold remove. rewrite H. cbn [existsb List.filter].
  now rewrite Nat.eqb_refl.
Qed.

Lemma closeModal_first (m : Modal) (rest : list Modal) (w : World) :
  body w = m :: rest ->
  closeModal w
  = (Normal tt,
     record [ERemoveModal (modal_id m)]
       (set_body (List.filter (fun x => negb (Nat.eqb (modal_id x) (modal_id m))) rest) w)).
Proof.
  intros H. unfold closeModal. rewrite H. now apply remove_present.
Qed.

Lemma keeps_ret {A} (a : A) : KeepsBlobUrls (ret a).
Proof. intros w; reflexivity. Qed.

Lemma keeps_throw {A} (e : JsError) : KeepsBlobUrls (throw (A := A) e).
Proof. intros w; reflexivity. Qed.

Lemma keeps_await {A} (c : Completion A) : KeepsBlobUrls (await c).
Proof. intros w; reflexivity. Qed.

Lemma keeps_emit (e : Event) : KeepsBlobUrls (emit e).
Proof. intros w; reflexivity. Qed.

Lemma keeps_setTimeout (ms : nat) (msg : string) : KeepsBlobUrls (setTimeout ms msg).
Proof. intros w; reflexivity. Qed.

Lemma keeps_set_clipboard (data : string) : KeepsBlobUrls (set_clipboard data).
Proof. intros w; reflexivity. Qed.

Lemma keeps_dropHandler (id k : nat) : KeepsBlobUrls (dropHandler id k).
Proof. intros w; reflexivity. Qed.

Lemma keeps_remove (id : nat) : KeepsBlobUrls (remove id).
Proof. intros w. unfold remove. now destruct (existsb _ _). Qed.

Lemma keeps_closeModal : KeepsBlobUrls closeModal.
Proof.
  intros w. unfold closeModal. destruct (body w); [reflexivity |].
  apply keeps_remove.
Qed.

Lemma keeps_bind {A B} (m : M A) (k : A -> M B) :
  KeepsBlobUrls m -> (forall a, KeepsBlobUrls (k a)) -> KeepsBlobUrls (bind m k).
Proof.
  intros Hm Hk w. unfold bind. specialize (Hm w).
  destruct (m w) as [[a | e] w1]; cbn [snd] in *; [| assumption].
  now rewrite Hk.
Qed.

Lemma keeps_try_catch {A} (m : M A) (h : JsError -> M A) :
  KeepsBlobUrls m -> (forall e, KeepsBlobUrls (h e)) -> KeepsBlobUrls (try_catch m h).
Proof.
  intros Hm Hh w. unfold try_catch. specialize (Hm w).
  destruct (m w) as [[a | e] w1]; cbn [snd] in *; [assumption |].
  now rewrite Hh.
Qed.

End ShareFacts.

Create HintDb keeps.
#[local] Hint Resolve keeps_ret keeps_throw keeps_await keeps_emit keeps_setTimeout
  keeps_set_clipboard keeps_dropHandler keeps_remove keeps_closeModal : keeps.
#[local] Hint Extern 2 (Share.KeepsBlobUrls (Share.bind _ _)) =>
  apply keeps_bind; [| intros ?] : keeps.
#[local] Hint Extern 2 (Share.KeepsBlobUrls (Share.try_catch _ _)) =>
  apply keeps_try_catch; [| intros ?] : keeps.

Section ManualOptionsFacts.
Import Js Share.

Lemma keeps_writeText (P : Platform) (data : string) :
  KeepsBlobUrls (writeText P data).
Proof. unfold writeText. destruct (navigator_clipboard P); auto with keeps. Qed.

(** No [onclick] handler of the surface touches the blob URL store. *)
Lemma keeps_runHandler (P : Platform) (modal : Modal) (h : Handler) :
  KeepsBlobUrls (runHandler P modal h).
Proof.
  pose proof (keeps_writeText P) as Hw.
  destruct h; cbn [runHandler];
    unfold downloadAndShare, shareViaEmail, copyFileLink, shareToWhatsApp,
      shareToTwitter, downloadAndShare, showSuccessMessage, showErrorMessage,
      window_open, alert;
    auto 10 with keeps.
Qed.

(** A click on a button or on the content box leaves the blob URL store
    unchanged; only a click on the backdrop revokes. *)
Lemma click_inside_keeps (P : Platform) (id : nat) (target : Target) :
  target <> OnBackdrop -> KeepsBlobUrls (click P id target).
Proof.
  intros Ht w. unfold click.
  destruct (List.find _ (body w)) as [modal |]; [| reflexivity].
  pose proof (keeps_runHandler P modal) as Hh.
  destruct target as [| | k]; [congruence | reflexivity |].
  cbn [backdropListener].
  destruct (buttons modal !! k) as [b |];
    [ apply (keeps_bind (bind (try_catch _ _) _) _)
    | apply (keeps_bind (ret tt) _) ];
    auto 10 with keeps.
  apply keeps_bind; [auto 10 with keeps |].
  intros []. destruct (compiles (onclick b)); auto with keeps.
Qed.

(** Once the surface is shown, whatever button is clicked, the blob URL
    created for it stays in the store. *)
Lemma button_click_leaves_object_url
      (P : Platform) (filename directory : string) (b : Blob) (w : World)
      (id k : nat) :
  let w1 := (showFileShareOptions P filename directory b w).2 in
  blob_urls (click P id (OnButton k) w1).2 !! next_url w = Some b.
Proof.
  intros w1. rewrite click_inside_keeps by discriminate.
  subst w1. rewrite showFileShareOptions_run. apply lookup_insert_eq.
Qed.

(** A click on the backdrop of the surface revokes the blob URL and takes
    the modal out of the document. *)
Lemma backdrop_click_revokes
      (P : Platform) (filename directory : string) (b : Blob) (w : World) :
  body w = [] ->
  let w1 := (showFileShareOptions P filename directory b w).2 in
  let w2 := (click P (next_node w) OnBackdrop w1).2 in
  blob_urls w2 !! next_url w = None /\ body w2 = [].
Proof.
  intros Hb w1 w2. subst w2 w1. rewrite showFileShareOptions_run.
  unfold click. cbn [snd body]. rewrite Hb. cbn [app List.find modal_id].
  rewrite Nat.eqb_refl.
  unfold backdropListener, revokeObjectURL, remove, bind, ret.
  cbn [listener_url modal_id body existsb]. rewrite Nat.eqb_refl.
  cbn [orb emit record set_body snd body blob_urls List.filter modal_id].
  rewrite Nat.eqb_refl. cbn [negb]. split; [apply lookup_delete_eq | reflexivity].
Qed.

(** C2 (evaluation).  On a desktop browser [shareSound("gehaald",
    "sounds")] shows the surface with the blob URL [0] live.  Closing it
    with any of the six buttons (the five actions and Close) removes the
    modal and leaves the blob URL in the store; only the backdrop click
    revokes it. *)
Theorem closing_by_button_keeps_object_url :
  let w1 := (shareSound Samples.desktop "gehaald" "sounds" initial).2 in
  blob_urls w1 !! 0 = Some Samples.gehaaldBlob
  /\ Forall (fun k =>
               let w2 := (click Samples.desktop 0 (OnButton k) w1).2 in
               body w2 = [] /\ blob_urls w2 !! 0 = Some Samples.gehaaldBlob)
       [0; 1; 2; 3; 4; 5]
  /\ (let w2 := (click Samples.desktop 0 OnBackdrop w1).2 in
      body w2 = [] /\ blob_urls w2 !! 0 = None).
Proof.
  split; [vm_compute; reflexivity |].
  split; [repeat constructor; vm_compute; reflexivity |].
  split; vm_compute; reflexivity.
Qed.

(** *** The clipboard action *)

Lemma closeModal_effects (w : World) :
  (closeModal w).1 = Normal tt
  /\ clipboard (closeModal w).2 = clipboard w
  /\ trace (closeModal w).2
     = trace w ++ match body w with
                  | [] => []
                  | modal :: _ => [ERemoveModal (modal_id modal)]
                  end.
Proof.
  destruct (body w) as [| modal rest] eqn:Hb.
  - unfold closeModal. rewrite Hb. cbn [fst snd]. now rewrite app_nil_r.
  - rewrite (closeModal_first modal rest w Hb). repeat split.
Qed.

(** The [try]/[catch] of [copyFileLink]: the write is attempted when the
    clipboard API exists, and exactly one notice follows: the success
    notice when the write is accepted, the clipboard error otherwise. *)
Lemma copy_attempt_run (P : Platform) (filename fileUrl : string) (w : World) :
  exists w1,
    try_catch
      (writeText P fileUrl ;; showSuccessMessage (copiedText fileUrl))%js
      (fun _ => showErrorMessage filename "Could not copy to clipboard") w
    = (Normal tt, w1)
    /\ body w1 = body w
    /\ clipboard w1
       = match navigator_clipboard P with
         | Some write =>
             match write fileUrl with
             | Normal _ => Some fileUrl
             | Throw _ => clipboard w
             end
         | None => clipboard w
         end
    /\ trace w1
       = trace w
         ++ match navigator_clipboard P with
            | Some write =>
                EClipboardWrite fileUrl
                :: match write fileUrl with
                   | Normal _ => [EAlert ("✅ " +:+ copiedText fileUrl)]
                   | Throw _ =>
                       [EAlert (errorText filename "Could not copy to clipboard")]
                   end
            | None => [EAlert (errorText filename "Could not copy to clipboard")]
            end.
Proof.
  unfold try_catch, writeText, showSuccessMessage, showErrorMessage, alert.
  destruct (navigator_clipboard P) as [write |].
  - unfold set_clipboard, emit, await, bind.
    destruct (write fileUrl) as [[] | e]; eexists; (split; [reflexivity |]);
      cbn [body clipboard trace record]; rewrite <- ?app_assoc; auto.
  - unfold throw, emit, bind. eexists; split; [reflexivity |].
    cbn [body clipboard trace record]; auto.
Qed.

(** C6. [copyFileLink] hands [navigator.clipboard.writeText] the URL
    [{origin}/{directory}/{identifier}.mp3], [origin] being
    [window.location.origin]: that URL is the one write the call makes
    when the clipboard API exists, and it is the content of the clipboard
    once the write is accepted. *)
Theorem copyFileLink_writes_file_url
        (P : Platform) (directory filename : string) (w : World) :
  let fileUrl :=
    location_origin P +:+ "/" +:+ directory +:+ "/" +:+ filename +:+ ".mp3" in
  let r := copyFileLink P (audioShareManager P) directory filename w in
  clipboardWrites (trace r.2)
  = clipboardWrites (trace w)
    ++ match navigator_clipboard P with Some _ => [fileUrl] | None => [] end
  /\ clipboard r.2
     = match navigator_clipboard P with
       | Some write =>
           match write fileUrl with
           | Normal _ => Some fileUrl
           | Throw _ => clipboard w
           end
       | None => clipboard w
       end.
Proof.
  intros fileUrl r.
  destruct (copy_attempt_run P filename fileUrl w) as (w1 & Hrun & Hb & Hc & Ht).
  assert (Hr : r = closeModal w1).
  { subst r. unfold copyFileLink.
    change (fileUrlOf (audioShareManager P) directory filename) with fileUrl.
    unfold bind at 1. now rewrite Hrun. }
  rewrite Hr.
  destruct (closeModal_effects w1) as (_ & Hc' & Ht').
  rewrite Hc', Ht', Ht, Hc. split; [| reflexivity].
  unfold clipboardWrites. rewrite !omap_app.
  destruct (navigator_clipboard P) as [write |];
    [destruct (write fileUrl) |]; destruct (body w1);
    cbn [omap]; rewrite ?app_nil_r; reflexivity.
Qed.

(** C10. With the surface open, [copyFileLink] always ends by taking it
    out of the document, after the one notice of the attempt: the success
    notice when the clipboard write is accepted, the clipboard error when
    it is rejected or the clipboard API is missing. *)
Theorem copyFileLink_closes_modal
        (P : Platform) (directory filename : string) (modal : Modal) (w : World) :
  body w = [modal] ->
  let fileUrl := fileUrlOf (audioShareManager P) directory filename in
  let r := copyFileLink P (audioShareManager P) directory filename w in
  r.1 = Normal tt
  /\ body r.2 = []
  /\ trace r.2
     = trace w
       ++ match navigator_clipboard P with
          | Some write =>
              EClipboardWrite fileUrl
              :: match write fileUrl with
                 | Normal _ => [EAlert ("✅ " +:+ copiedText fileUrl)]
                 | Throw _ =>
                     [EAlert (errorText filename "Could not copy to clipboard")]
                 end
          | None => [EAlert (errorText filename "Could not copy to clipboard")]
          end
       ++ [ERemoveModal (modal_id modal)].
Proof.
  intros Hbody fileUrl r.
  destruct (copy_attempt_run P filename fileUrl w) as (w1 & Hrun & Hb & Hc & Ht).
  assert (Hr : r = closeModal w1).
  { subst r. unfold copyFileLink. fold fileUrl.
    unfold bind at 1. now rewrite Hrun. }
  rewrite Hr. rewrite Hbody in Hb.
  rewrite (closeModal_first modal [] w1 Hb).
  cbn [fst snd body trace record set_body List.filter].
  rewrite Ht, <- app_assoc. auto.
Qed.

Lemma copyFileLink_closes_modal_witness :
  let w1 := (shareSound Samples.refusing "gehaald" "sounds" initial).2 in
  let r := copyFileLink Samples.refusing (audioShareManager Samples.refusing)
             "sounds" "gehaald" w1 in
  body r.2 = []
  /\ alerts (trace r.2) = [errorText "gehaald" "Could not copy to clipboard"].
Proof.
  intros w1 r.
  pose proof (copyFileLink_closes_modal Samples.refusing "sounds" "gehaald"
                {| modal_id := 0;
                   heading := "Share " +:+ dq +:+ "gehaald" +:+ dq;
                   buttons := modalButtons "gehaald" "sounds" 0;
                   listener_url := 0 |} w1 eq_refl) as (_ & Hb & Ht).
  split; [exact Hb |].
  subst r. rewrite Ht. reflexivity.
Defined.

(** *** Deep links *)

Lemma open_then_close (url : string) (w : World) :
  opened (trace ((window_open url ;; closeModal)%js w).2)
  = opened (trace w) ++ [url].
Proof.
  unfold window_open, emit, bind.
  destruct (closeModal_effects (record [EWindowOpen url] w)) as (_ & _ & Ht).
  rewrite Ht. cbn [trace record body]. unfold opened. rewrite !omap_app.
  destruct (body w); cbn [omap]; now rewrite ?app_nil_r.
Qed.

(** C7. [shareToWhatsApp] opens [https://wa.me/?text=<encoded>] and
    [shareToTwitter] opens [https://twitter.com/intent/tweet?text=<encoded>].
    In both, [<encoded>] is the URL-encoded form of the templated message:
    it is written with unreserved characters and [%XX] escapes only (so it
    holds no space, quote, line feed, colon or slash), and
    [decodeURIComponent] reads the message back from it.  The message holds
    the identifier and the resource URL
    [{origin}/{directory}/{identifier}.mp3], and the parameter holds the
    encoded form of both.  The last lines pin the encoder on the characters
    the templates bring in.  Identifier, directory and origin are
    well-formed strings, as everywhere in this file. *)
Theorem deep_links_carry_encoded_url
        (P : Platform) (filename directory : string) (w : World) :
  let this := audioShareManager P in
  let fileUrl :=
    location_origin P +:+ "/" +:+ directory +:+ "/" +:+ filename +:+ ".mp3" in
  let wa := whatsAppMessage this filename directory in
  let tw := twitterMessage this filename directory in
  (exists text,
      opened (trace (shareToWhatsApp this filename directory w).2)
      = opened (trace w) ++ ["https://wa.me/?text=" +:+ text]
      /\ text = encodeURIComponent wa
      /\ decodeURIComponent text = Some wa
      /\ (forall x, x ∈ chars text -> x = "%"%char \/ unreserved x = true)
      /\ contains text (encodeURIComponent fileUrl)
      /\ contains text (encodeURIComponent filename))
  /\ (exists text,
        opened (trace (shareToTwitter this filename directory w).2)
        = opened (trace w) ++ ["https://twitter.com/intent/tweet?text=" +:+ text]
        /\ text = encodeURIComponent tw
        /\ decodeURIComponent text = Some tw
        /\ (forall x, x ∈ chars text -> x = "%"%char \/ unreserved x = true)
        /\ contains text (encodeURIComponent fileUrl)
        /\ contains text (encodeURIComponent filename))
  /\ wa = "🎵 Check out this sound: " +:+ dq +:+ filename +:+ dq +:+ nl +:+ nl
          +:+ "Listen here: " +:+ fileUrl
  /\ tw = "🎵 Check out this awesome sound: " +:+ dq +:+ filename +:+ dq +:+ " "
          +:+ fileUrl
  /\ unreserved " "%char = false /\ unreserved "034"%char = false
  /\ unreserved "010"%char = false /\ unreserved ":"%char = false
  /\ unreserved "/"%char = false
  /\ encodeURIComponent ("🎵 a:/" +:+ dq +:+ nl) = "%F0%9F%8E%B5%20a%3A%2F%22%0A".
Proof.
  intros this fileUrl wa tw.
  assert (Hwa : wa = "🎵 Check out this sound: " +:+ dq +:+ filename +:+ dq
                     +:+ nl +:+ nl +:+ "Listen here: " +:+ fileUrl)
    by reflexivity.
  assert (Htw : tw = "🎵 Check out this awesome sound: " +:+ dq +:+ filename
                     +:+ dq +:+ " " +:+ fileUrl)
    by reflexivity.
  split; [| split; [| split; [exact Hwa | split; [exact Htw | repeat split]]]].
  - exists (encodeURIComponent wa).
    split; [apply open_then_close |]. split; [reflexivity |].
    split; [apply decode_encode |]. split; [apply encodeURIComponent_chars |].
    rewrite Hwa. split; apply contains_encoded; auto 12 with strs.
  - exists (encodeURIComponent tw).
    split; [apply open_then_close |]. split; [reflexivity |].
    split; [apply decode_encode |]. split; [apply encodeURIComponent_chars |].
    rewrite Htw. split; apply contains_encoded; auto 12 with strs.
Qed.

Example whatsApp_link_gehaald :
  opened (trace (shareToWhatsApp (audioShareManager Samples.desktop)
                   "gehaald" "sounds" initial).2)
  = [ "https://wa.me/?text=%F0%9F%8E%B5%20Check%20out%20this%20sound%3A%20%22gehaald%22%0A%0AListen%20here%3A%20https%3A%2F%2Fvibeboard.example%2Fsounds%2Fgehaald.mp3" ].
Proof. reflexivity. Qed.

(** *** The email action *)

Lemma sounds_is_not_soundz (origin filename : string) :
  origin +:+ "/sounds/" +:+ filename +:+ ".mp3"
  <> origin +:+ "/" +:+ "soundz" +:+ "/" +:+ filename +:+ ".mp3".
Proof.
  intros H. apply (inj (String.append origin)) in H.
  simpl in H. discriminate H.
Qed.

(** C9. Whatever directory the surface was opened for, its email button
    calls [shareViaEmail] with the identifier and the blob URL only, and
    the mail it composes gives [{origin}/sounds/{identifier}.mp3] as the
    place to download the file from.  For a sound of the directory
    [soundz] that is not the URL of the shared file. *)
Theorem email_link_has_fixed_directory
        (P : Platform) (filename directory : string) (downloadUrl : ObjectUrl)
        (w : World) :
  let this := audioShareManager P in
  let emailed := location_origin P +:+ "/sounds/" +:+ filename +:+ ".mp3" in
  onclick <$> modalButtons filename directory downloadUrl !! 1
  = Some (OnShareViaEmail filename downloadUrl)
  /\ opened (trace (shareViaEmail this filename downloadUrl w).2)
     = opened (trace w)
       ++ ["mailto:?subject=" +:+ encodeURIComponent (emailSubject filename)
           +:+ "&body=" +:+ encodeURIComponent (emailBody this filename)]
  /\ emailBody this filename
     = "Hey! Check out this awesome sound from Vibeboard: "
       +:+ dq +:+ filename +:+ dq +:+ nl +:+ nl
       +:+ "I've attached the audio file for you to enjoy!" +:+ nl +:+ nl
       +:+ "Note: Download the file from: " +:+ emailed
  /\ contains (encodeURIComponent (emailBody this filename))
       (encodeURIComponent emailed)
  /\ emailed <> fileUrlOf this "soundz" filename.
Proof.
  intros this emailed.
  split; [reflexivity |].
  split.
  { unfold shareViaEmail, downloadAndShare, window_open, emit, setTimeout, bind.
    match goal with
    | |- context [closeModal ?w0] =>
        destruct (closeModal_effects w0) as (_ & _ & Ht); rewrite Ht
    end.
    cbn [trace record body]. unfold opened. rewrite !omap_app.
    destruct (body w); cbn [omap]; now rewrite ?app_nil_r. }
  split; [reflexivity |].
  split.
  - apply contains_encoded. unfold emailBody. fold emailed. auto 12 with strs.
  - apply sounds_is_not_soundz.
Qed.

End ManualOptionsFacts.

(** ** The service worker *)

Section WorkerFacts.
Import ServiceWorker.

Variable origin : string.
Variable network : Request -> option Response.

(** *** The cache storage *)

Lemma lookupCache_names (name : string) (cs : list (string * list (Request * Response))) :
  lookupCache name cs = None <-> name ∉ cs.*1.
Proof.
  induction cs as [| [n c] cs IH]; cbn [lookupCache fmap list_fmap fst].
  - split; [intros _; apply not_elem_of_nil | reflexivity].
  - rewrite not_elem_of_cons. destruct (String.eqb n name) eqn:E.
    + apply String.eqb_eq in E. split; [discriminate | intros [? _]; congruence].
    + apply String.eqb_neq in E. rewrite IH. split; [auto | tauto].
Qed.

Lemma lookupCache_app_fresh (name : string) (c : list (Request * Response))
      (cs : list (string * list (Request * Response))) (other : string) :
  lookupCache other (cs ++ [(name, c)])
  = match lookupCache other cs with
    | Some c0 => Some c0
    | None => if String.eqb name other then Some c else None
    end.
Proof.
  induction cs as [| [n c0] cs IH]; cbn [lookupCache app]; [reflexivity |].
  now destruct (String.eqb n other).
Qed.

Lemma lookupCache_storeCache (name other : string) (c : list (Request * Response))
      (cs : list (string * list (Request * Response))) :
  lookupCache other (storeCache name c cs)
  = if String.eqb name other then Some c else lookupCache other cs.
Proof.
  induction cs as [| [n c0] cs IH]; cbn [lookupCache storeCache]; [reflexivity |].
  destruct (String.eqb n name) eqn:E; cbn [lookupCache].
  - apply String.eqb_eq in E. subst n. now destruct (String.eqb name other).
  - destruct (String.eqb n other) eqn:E'; [| exact IH].
    apply String.eqb_eq in E'. subst n. now rewrite String.eqb_sym, E.
Qed.

Lemma storeCache_names (name : string) (c : list (Request * Response))
      (cs : list (string * list (Request * Response))) :
  name ∈ cs.*1 -> (storeCache name c cs).*1 = cs.*1.
Proof.
  induction cs as [| [n c0] cs IH]; cbn [storeCache fmap list_fmap fst].
  - intros H. now apply elem_of_nil in H.
  - intros H. destruct (String.eqb n name) eqn:E; [reflexivity |].
    apply String.eqb_neq in E. apply elem_of_cons in H as [-> | H]; [congruence |].
    cbn [fmap list_fmap fst]. f_equal. now apply IH.
Qed.

Lemma storeCache_same (cs : list (string * list (Request * Response))) (name : string)
      (c : list (Request * Response)) :
  lookupCache name cs = Some c -> storeCache name c cs = cs.
Proof.
  induction cs as [| [n c1] cs IH]; cbn [lookupCache storeCache]; [discriminate |].
  destruct (String.eqb n name); [intros [= ->]; reflexivity |].
  intros H. f_equal. auto.
Qed.

Lemma lookupCache_elem (cs : list (string * list (Request * Response))) (name : string)
      (c : list (Request * Response)) :
  lookupCache name cs = Some c -> (name, c) ∈ cs.
Proof.
  induction cs as [| [n c1] cs IH]; cbn [lookupCache]; [discriminate |].
  destruct (String.eqb n name) eqn:E.
  - apply String.eqb_eq in E. intros [= ->]. subst. apply elem_of_cons. auto.
  - intros H. apply elem_of_cons. auto.
Qed.

Lemma storeCache_elem (cs : list (string * list (Request * Response)))
      (name n0 : string) (c c0 : list (Request * Response)) :
  (n0, c0) ∈ storeCache name c cs -> (n0 = name /\ c0 = c) \/ (n0, c0) ∈ cs.
Proof.
  induction cs as [| [n c1] cs IH]; cbn [storeCache].
  - intros H. apply elem_of_cons in H as [[= -> ->] | H]; [auto |].
    now apply elem_of_nil in H.
  - destruct (String.eqb n name) eqn:E.
    + apply String.eqb_eq in E. subst n. intros H.
      apply elem_of_cons in H as [[= -> ->] | H]; [auto |].
      right. apply elem_of_cons. auto.
    + intros H. apply elem_of_cons in H as [[= -> ->] | H].
      * right. apply elem_of_cons. auto.
      * destruct (IH H) as [? | ?]; [auto |]. right. apply elem_of_cons. auto.
Qed.

Lemma caches_open_effects (name : string)
      (cs : list (string * list (Request * Response))) :
  (caches_open name cs).1 = default [] (lookupCache name cs)
  /\ lookupCache name (caches_open name cs).2 = Some (caches_open name cs).1
  /\ (forall other, other <> name ->
                    lookupCache other (caches_open name cs).2 = lookupCache other cs)
  /\ (forall n0 c0, (n0, c0) ∈ (caches_open name cs).2 ->
                    (n0, c0) ∈ cs \/ c0 = [])
  /\ (forall n0 c0, (n0, c0) ∈ cs -> (n0, c0) ∈ (caches_open name cs).2)
  /\ (caches_open name cs).2.*1
     = (if decide (name ∈ cs.*1) then cs.*1 else cs.*1 ++ [name]).
Proof.
  unfold caches_open. destruct (lookupCache name cs) as [c0 |] eqn:Hl; cbn [fst snd].
  - assert (Hin : name ∈ cs.*1).
    { destruct (decide (name ∈ cs.*1)) as [| Hn]; [assumption |].
      apply lookupCache_names in Hn. congruence. }
    rewrite decide_True by assumption. auto 10.
  - assert (Hn : name ∉ cs.*1) by now apply lookupCache_names.
    rewrite decide_False by assumption. repeat split.
    + rewrite lookupCache_app_fresh, Hl. now rewrite String.eqb_refl.
    + intros other Hne. rewrite lookupCache_app_fresh.
      apply not_eq_sym, String.eqb_neq in Hne. rewrite Hne.
      now destruct (lookupCache other cs).
    + intros n0 c0 H. apply elem_of_app in H as [H | H]; [auto |].
      apply elem_of_cons in H as [[= -> ->] | H]; [auto |].
      now apply elem_of_nil in H.
    + intros n0 c0 H. apply elem_of_app. auto.
    + now rewrite fmap_app.
Qed.

(** *** Matching *)

Lemma cache_match_None (c : list (Request * Response)) (request : Request) :
  cache_match c request = None
  <-> forall e, e ∈ c -> requestMatches request e = false.
Proof.
  unfold cache_match. split.
  - destruct (List.find _ c) as [e |] eqn:Hf; [discriminate |].
    intros _ e He. apply list_elem_of_In in He.
    exact (List.find_none _ _ Hf e He).
  - intros H. destruct (List.find _ c) as [e |] eqn:Hf; [| reflexivity].
    apply List.find_some in Hf as [He Hm]. apply list_elem_of_In in He.
    rewrite (H e He) in Hm. discriminate.
Qed.

Lemma cache_match_Some (c : list (Request * Response)) (request : Request)
      (response : Response) :
  cache_match c request = Some response ->
  exists cached, (cached, response) ∈ c
                 /\ requestMatches request (cached, response) = true.
Proof.
  unfold cache_match. destruct (List.find _ c) as [[cached r] |] eqn:Hf;
    [| discriminate].
  intros [= <-]. apply List.find_some in Hf as [He Hm].
  apply list_elem_of_In in He. eauto.
Qed.

Lemma caches_match_None (cs : list (string * list (Request * Response)))
      (request : Request) :
  caches_match cs request = None
  <-> forall name c e, (name, c) ∈ cs -> e ∈ c -> requestMatches request e = false.
Proof.
  induction cs as [| [n c0] cs IH]; cbn [caches_match].
  - split; [| reflexivity]. intros _ name c e H. now apply elem_of_nil in H.
  - destruct (cache_match c0 request) as [r |] eqn:E.
    + split; [discriminate |]. intros H. exfalso.
      apply cache_match_Some in E as (cached & Hin & Hm).
      rewrite (H n c0 _ (list_elem_of_here _ _) Hin) in Hm. discriminate.
    + rewrite IH. split.
      * intros H name c e Hc He. apply elem_of_cons in Hc as [[= -> ->] | Hc].
        -- exact (proj1 (cache_match_None _ _) E e He).
        -- eauto.
      * intros H name c e Hc He. apply (H name c e); [| assumption].
        apply elem_of_cons. auto.
Qed.

Lemma caches_match_Some (cs : list (string * list (Request * Response)))
      (request : Request) (response : Response) :
  caches_match cs request = Some response ->
  exists name c cached, (name, c) ∈ cs /\ (cached, response) ∈ c
                        /\ requestMatches request (cached, response) = true.
Proof.
  induction cs as [| [n c0] cs IH]; cbn [caches_match]; [discriminate |].
  destruct (cache_match c0 request) as [r |] eqn:E.
  - intros [= ->]. apply cache_match_Some in E as (cached & Hin & Hm).
    exists n, c0, cached. split; [apply elem_of_cons; auto | auto].
  - intros H. destruct (IH H) as (name & c & cached & Hc & Hrest).
    exists name, c, cached. split; [apply elem_of_cons; auto | exact Hrest].
Qed.

(** A request some pair matches is answered from the caches; when all the
    pairs it matches hold the same response, that is the answer. *)
Lemma caches_match_hit (cs : list (string * list (Request * Response)))
      (request : Request) (name : string) (c : list (Request * Response))
      (e : Request * Response) :
  (name, c) ∈ cs -> e ∈ c -> requestMatches request e = true ->
  exists response, caches_match cs request = Some response.
Proof.
  intros Hc He Hm. destruct (caches_match cs request) as [r |] eqn:E; [eauto |].
  rewrite (proj1 (caches_match_None _ _) E name c e Hc He) in Hm. discriminate.
Qed.

(** *** URLs *)

Lemma withoutFragment_app (a b : string) :
  withoutFragment a = a -> withoutFragment (a +:+ b) = a +:+ withoutFragment b.
Proof.
  induction a as [| x a IH]; [reflexivity |].
  cbn [withoutFragment]. change (String x a +:+ b) with (String x (a +:+ b)).
  cbn [withoutFragment]. destruct (Ascii.eqb x "#"); [discriminate |].
  intros [= H]. now rewrite (IH H).
Qed.

Lemma requestOf_matches_inv (q : Request) (p : string) (a : Response) :
  withoutFragment origin = origin ->
  requestMatches q (requestOf origin p, a) = true ->
  method q = "GET" /\ withoutFragment (url q) = origin +:+ withoutFragment p.
Proof.
  intros Ho H. unfold requestMatches in H.
  apply andb_prop in H as [H _]. apply andb_prop in H as [Hm Hu].
  apply String.eqb_eq in Hm, Hu. split; [exact Hm |].
  rewrite Hu. cbn [fst requestOf getRequest url]. now apply withoutFragment_app.
Qed.

Lemma requestOf_matches (q : Request) (p : string) (a : Response) :
  withoutFragment origin = origin ->
  method q = "GET" ->
  withoutFragment (url q) = origin +:+ withoutFragment p ->
  Forall (fun name => name <> "*" /\ combinedValue name (headers q) = None) (vary a) ->
  requestMatches q (requestOf origin p, a) = true.
Proof.
  intros Ho Hm Hu Hv. unfold requestMatches.
  cbn [fst snd requestOf getRequest url headers].
  rewrite Hm, Hu, (withoutFragment_app _ _ Ho), !String.eqb_refl. cbn [andb].
  apply List.forallb_forall. intros name Hin. apply list_elem_of_In in Hin.
  rewrite Forall_forall in Hv. destruct (Hv name Hin) as [Hne Hc].
  apply String.eqb_neq in Hne. rewrite Hne, Hc. reflexivity.
Qed.

Lemma cacheable_vary (a : Response) :
  cacheable a = true -> Forall (fun name => name <> "*") (vary a).
Proof.
  unfold cacheable. intros H. apply andb_prop in H as [_ H].
  apply negb_true_iff in H. apply Forall_forall. intros name Hin ->.
  apply list_elem_of_In in Hin.
  assert (existsb (String.eqb "*") (vary a) = true).
  { apply List.existsb_exists. exists "*". split; [assumption | reflexivity]. }
  congruence.
Qed.

(** A request of the manifest matches the pair stored for it. *)
Lemma requestOf_self (p : string) (a : Response) :
  cacheable a = true ->
  requestMatches (requestOf origin p) (requestOf origin p, a) = true.
Proof.
  intros Ha. unfold requestMatches. cbn [fst snd requestOf getRequest url method headers].
  rewrite !String.eqb_refl. cbn [andb].
  apply List.forallb_forall. intros name Hin. apply list_elem_of_In in Hin.
  pose proof (cacheable_vary a Ha) as Hv. rewrite Forall_forall in Hv.
  specialize (Hv name Hin). apply String.eqb_neq in Hv. rewrite Hv.
  reflexivity.
Qed.

(** *** The fetches of the install *)

Lemma fetchAll_answers (paths : list string) (ops : list (Request * Response)) :
  fetchAll origin network paths = Some ops ->
  Forall2 (fun p e => e.1 = requestOf origin p
                      /\ network (requestOf origin p) = Some e.2
                      /\ cacheable e.2 = true) paths ops.
Proof.
  revert ops. induction paths as [| p paths IH]; intros ops; cbn [fetchAll].
  - intros [= <-]. constructor.
  - destruct (network (requestOf origin p)) as [r |] eqn:Hn; [| discriminate].
    destruct (cacheable r) eqn:Hc; [| discriminate].
    destruct (fetchAll origin network paths) as [rs |]; [| discriminate].
    intros [= <-]. constructor; [cbn [fst snd]; auto | auto].
Qed.

Lemma fetchAll_succeeds (paths : list string) :
  Forall (fun p => exists a, network (requestOf origin p) = Some a
                             /\ cacheable a = true) paths ->
  is_Some (fetchAll origin network paths).
Proof.
  induction 1 as [| p paths (r & Hn & Hok) _ IH]; cbn [fetchAll]; [eauto |].
  rewrite Hn, Hok. destruct IH as [rs ->]. eauto.
Qed.

(** One request of the manifest without an answer the cache accepts makes
    the whole [addAll] fail. *)
Lemma fetchAll_fails (paths : list string) :
  Exists (fun p => forall a, network (requestOf origin p) = Some a ->
                             cacheable a = false) paths ->
  fetchAll origin network paths = None.
Proof.
  induction 1 as [p paths H | p paths _ IH]; cbn [fetchAll].
  - destruct (network (requestOf origin p)) as [r |]; [| reflexivity].
    now rewrite (H r eq_refl).
  - destruct (network (requestOf origin p)) as [r |]; [| reflexivity].
    destruct (cacheable r); [| reflexivity]. now rewrite IH.
Qed.

(** *** The batch of the install *)

Lemma filter_filter_bool {A} (f g : A -> bool) (l : list A) :
  List.filter f (List.filter g l) = List.filter (fun x => g x && f x) l.
Proof.
  induction l as [| x l IH]; [reflexivity |]. cbn [List.filter].
  destruct (g x); cbn [List.filter andb]; [| exact IH].
  destruct (f x); now rewrite IH.
Qed.

Lemma batchPut_apart (ops added c : list (Request * Response)) :
  Apart ops ->
  Forall (fun op => Forall (fun e => requestMatches op.1 e = false) added) ops ->
  batchPut ops added c = Some (foldl cache_put c ops).
Proof.
  revert added c. induction ops as [| op ops IH]; intros added c Ha Hadd;
    cbn [batchPut foldl]; [reflexivity |].
  destruct Ha as [Hlater Ha]. apply Forall_cons in Hadd as [Hop Hadd].
  assert (Hnone : existsb (requestMatches op.1) added = false).
  { destruct (existsb _ added) eqn:E; [| reflexivity].
    apply List.existsb_exists in E as (e & He & Hm). apply list_elem_of_In in He.
    rewrite Forall_forall in Hop. rewrite (Hop e He) in Hm. discriminate. }
  rewrite Hnone. apply IH; [exact Ha |].
  rewrite Forall_forall in *. intros later Hl. apply Forall_app. split; [auto |].
  constructor; [auto | constructor].
Qed.

Lemma foldl_put_apart (ops c : list (Request * Response)) :
  Apart ops ->
  foldl cache_put c ops
  = List.filter (fun e => negb (existsb (fun op => requestMatches op.1 e) ops)) c
    ++ ops.
Proof.
  revert c. induction ops as [| op ops IH]; intros c Ha; cbn [foldl].
  - rewrite app_nil_r. cbn [existsb negb]. symmetry.
    apply List.forallb_filter_id, List.forallb_forall. reflexivity.
  - destruct Ha as [Hlater Ha]. rewrite (IH _ Ha). unfold cache_put.
    rewrite List.filter_app, filter_filter_bool. cbn [List.filter].
    assert (Hkeep : negb (existsb (fun op0 => requestMatches op0.1 op) ops) = true).
    { apply negb_true_iff. destruct (existsb _ ops) eqn:E; [| reflexivity].
      apply List.existsb_exists in E as (later & Hl & Hm).
      apply list_elem_of_In in Hl. rewrite Forall_forall in Hlater.
      rewrite (Hlater later Hl) in Hm. discriminate. }
    rewrite Hkeep. rewrite <- app_assoc. cbn [app]. f_equal.
    apply List.filter_ext. intros e. cbn [existsb]. now rewrite negb_orb.
Qed.

Lemma batchPut_entries (ops added c c' : list (Request * Response)) :
  batchPut ops added c = Some c' ->
  forall e, e ∈ c' -> e ∈ c \/ e ∈ ops.
Proof.
  revert added c. induction ops as [| op ops IH]; intros added c; cbn [batchPut].
  - intros [= <-] e He. auto.
  - destruct (existsb _ added); [discriminate |].
    intros H e He. destruct (IH _ _ H e He) as [Hc | Ho].
    + unfold cache_put in Hc. apply elem_of_app in Hc as [Hc | Hc].
      * apply list_elem_of_In, List.filter_In in Hc as [Hc _].
        apply list_elem_of_In in Hc. auto.
      * apply elem_of_cons in Hc as [-> | Hc]; [| now apply elem_of_nil in Hc].
        right. apply elem_of_cons. auto.
    + right. apply elem_of_cons. auto.
Qed.

Lemma answers_requests (paths : list string) (ops : list (Request * Response)) :
  Forall2 (fun p e => e.1 = requestOf origin p
                      /\ network (requestOf origin p) = Some e.2
                      /\ cacheable e.2 = true) paths ops ->
  forall e, e ∈ ops ->
            exists p, p ∈ paths /\ e.1 = requestOf origin p
                      /\ network (requestOf origin p) = Some e.2
                      /\ cacheable e.2 = true.
Proof.
  induction 1 as [| p e0 paths ops H _ IH]; intros e He.
  - now apply elem_of_nil in He.
  - apply elem_of_cons in He as [-> | He].
    + exists p. split; [apply elem_of_cons; auto | exact H].
    + destruct (IH e He) as (p' & Hp & Hrest).
      exists p'. split; [apply elem_of_cons; auto | exact Hrest].
Qed.

Lemma answers_of_path (paths : list string) (ops : list (Request * Response))
      (p : string) :
  Forall2 (fun p e => e.1 = requestOf origin p
                      /\ network (requestOf origin p) = Some e.2
                      /\ cacheable e.2 = true) paths ops ->
  p ∈ paths ->
  exists a, network (requestOf origin p) = Some a /\ cacheable a = true
            /\ (requestOf origin p, a) ∈ ops.
Proof.
  induction 1 as [| p0 e0 paths ops (H1 & H2 & H3) _ IH]; intros Hp.
  - now apply elem_of_nil in Hp.
  - apply elem_of_cons in Hp as [-> | Hp].
    + exists e0.2. split; [exact H2 |]. split; [exact H3 |].
      apply elem_of_cons. left. destruct e0 as [r a]. cbn [fst snd] in *. now subst.
    + destruct (IH Hp) as (a & Ha & Hc & Hin).
      exists a. split; [exact Ha |]. split; [exact Hc |]. apply elem_of_cons. auto.
Qed.

Lemma answers_Apart (paths : list string) (ops : list (Request * Response)) :
  withoutFragment origin = origin ->
  NoDup (withoutFragment <$> paths) ->
  Forall2 (fun p e => e.1 = requestOf origin p
                      /\ network (requestOf origin p) = Some e.2
                      /\ cacheable e.2 = true) paths ops ->
  Apart ops.
Proof.
  intros Ho Hnd H. induction H as [| p e0 paths ops (H1 & _) Hrest IH];
    cbn [Apart]; [exact I |].
  cbn [fmap list_fmap] in Hnd. apply NoDup_cons in Hnd as [Hnew Hnd].
  split; [| auto].
  apply Forall_forall. intros later Hl.
  destruct (answers_requests _ _ Hrest later Hl) as (p' & Hp' & Hreq & _).
  destruct (requestMatches later.1 e0) eqn:Hm; [| reflexivity].
  exfalso. apply Hnew. destruct e0 as [r a]. cbn [fst] in H1. subst r.
  destruct (requestOf_matches_inv _ _ _ Ho Hm) as [_ Hu].
  rewrite Hreq in Hu. cbn [requestOf getRequest url] in Hu.
  rewrite (withoutFragment_app _ _ Ho) in Hu.
  apply (inj (String.append origin)) in Hu. rewrite <- Hu.
  apply list_elem_of_fmap. eauto.
Qed.

Lemma answers_existsb (paths : list string) (ops : list (Request * Response))
      (e : Request * Response) :
  Forall2 (fun p e => e.1 = requestOf origin p
                      /\ network (requestOf origin p) = Some e.2
                      /\ cacheable e.2 = true) paths ops ->
  existsb (fun op => requestMatches op.1 e) ops
  = existsb (fun p => requestMatches (requestOf origin p) e) paths.
Proof.
  induction 1 as [| p e0 paths ops (H1 & _) _ IH]; [reflexivity |].
  cbn [existsb]. now rewrite H1, IH.
Qed.

Lemma urlsToCache_NoDup : NoDup (withoutFragment <$> urlsToCache).
Proof.
  assert (withoutFragment <$> urlsToCache = urlsToCache) as -> by reflexivity.
  apply NoDup_ListNoDup. repeat constructor; cbn; intuition discriminate.
Qed.

Lemma urlsToCache_no_fragment (p : string) :
  p ∈ urlsToCache -> withoutFragment p = p.
Proof.
  intros H. apply list_elem_of_In in H. cbn in H.
  repeat (destruct H as [<- | H]; [reflexivity |]). destruct H.
Qed.

(** A successful install, spelled out: the pairs of the cache that no
    request of the manifest matches are kept, and the answers of the
    manifest follow them, in the order of the manifest. *)
Lemma onInstall_success (cs : list (string * list (Request * Response))) :
  withoutFragment origin = origin ->
  Forall (fun p => exists a, network (requestOf origin p) = Some a
                             /\ cacheable a = true) urlsToCache ->
  exists ops,
    fetchAll origin network urlsToCache = Some ops
    /\ Forall2 (fun p e => e.1 = requestOf origin p
                           /\ network (requestOf origin p) = Some e.2
                           /\ cacheable e.2 = true) urlsToCache ops
    /\ onInstall origin network cs
       = (true,
          storeCache CACHE_NAME
            (List.filter
               (fun e => negb (existsb (fun p => requestMatches (requestOf origin p) e)
                                 urlsToCache))
               (caches_open CACHE_NAME cs).1
             ++ ops)
            (caches_open CACHE_NAME cs).2).
Proof.
  intros Ho Hall. destruct (fetchAll_succeeds _ Hall) as [ops Hops].
  pose proof (fetchAll_answers _ _ Hops) as Hans.
  pose proof (answers_Apart _ _ Ho urlsToCache_NoDup Hans) as Hap.
  exists ops. split; [exact Hops |]. split; [exact Hans |].
  unfold onInstall, addAll. destruct (caches_open CACHE_NAME cs) as [c0 cs1].
  rewrite Hops. cbn [fst snd].
  rewrite (batchPut_apart ops [] c0 Hap)
    by (apply Forall_forall; intros; constructor).
  rewrite (foldl_put_apart ops c0 Hap). do 3 f_equal.
  apply List.filter_ext. intros e. now rewrite (answers_existsb _ _ e Hans).
Qed.

Lemma caches_match_app (cs : list (string * list (Request * Response)))
      (name : string) (c : list (Request * Response)) (request : Request) :
  caches_match (cs ++ [(name, c)]) request
  = match caches_match cs request with
    | Some r => Some r
    | None => cache_match c request
    end.
Proof.
  induction cs as [| [n c0] cs IH]; cbn [caches_match app].
  - now destruct (cache_match c request).
  - now destruct (cache_match c0 request).
Qed.

(** [caches.open] changes no answer of [caches.match]. *)
Lemma caches_open_match (name : string)
      (cs : list (string * list (Request * Response))) (request : Request) :
  caches_match (caches_open name cs).2 request = caches_match cs request.
Proof.
  unfold caches_open. destruct (lookupCache name cs); cbn [snd]; [reflexivity |].
  rewrite caches_match_app. now destruct (caches_match cs request).
Qed.

Lemma filter_none {A} (f : A -> bool) (l : list A) :
  (forall x, x ∈ l -> f x = false) -> List.filter f l = [].
Proof.
  induction l as [| x l IH]; intros H; [reflexivity |]. cbn [List.filter].
  rewrite (H x) by (apply elem_of_cons; auto).
  apply IH. intros y Hy. apply H, elem_of_cons. auto.
Qed.

(** After the install every pair of every cache is a pair that was there
    before, or the answer of the network to a request of the manifest. *)
Lemma onInstall_entries (cs : list (string * list (Request * Response)))
      (name : string) (c : list (Request * Response)) (e : Request * Response) :
  (name, c) ∈ (onInstall origin network cs).2 -> e ∈ c ->
  (exists name' c', (name', c') ∈ cs /\ e ∈ c')
  \/ (exists p, p ∈ urlsToCache /\ e.1 = requestOf origin p
                /\ network (requestOf origin p) = Some e.2
                /\ cacheable e.2 = true).
Proof.
  destruct (caches_open_effects CACHE_NAME cs) as (Hc0 & _ & _ & Hold & _ & _).
  assert (Hopen : forall n0 c1, (n0, c1) ∈ (caches_open CACHE_NAME cs).2 -> e ∈ c1 ->
                                exists name' c', (name', c') ∈ cs /\ e ∈ c').
  { intros n0 c1 H He. destruct (Hold n0 c1 H) as [Hin | ->]; [eauto |].
    now apply elem_of_nil in He. }
  assert (Hfirst : e ∈ (caches_open CACHE_NAME cs).1 ->
                   exists name' c', (name', c') ∈ cs /\ e ∈ c').
  { rewrite Hc0. destruct (lookupCache CACHE_NAME cs) as [c0 |] eqn:Hl; cbn [default].
    - intros He. apply lookupCache_elem in Hl. eauto.
    - intros He. now apply elem_of_nil in He. }
  unfold onInstall, addAll. destruct (caches_open CACHE_NAME cs) as [c0 cs1].
  cbn [fst snd] in *.
  destruct (fetchAll origin network urlsToCache) as [ops |] eqn:Hops;
    [| cbn [snd]; eauto].
  destruct (batchPut ops [] c0) as [c' |] eqn:Hput; cbn [snd]; [| eauto].
  intros H He. apply storeCache_elem in H as [[_ ->] | H]; [| eauto].
  destruct (batchPut_entries _ _ _ _ Hput e He) as [Hin | Hin]; [auto |].
  right. exact (answers_requests _ _ (fetchAll_answers _ _ Hops) e Hin).
Qed.

Lemma requestOf_matches_url (q : Request) (p : string) (a : Response) :
  requestMatches q (requestOf origin p, a) = true ->
  withoutFragment (url q) = withoutFragment (origin +:+ p).
Proof.
  intros H. unfold requestMatches in H.
  apply andb_prop in H as [H _]. apply andb_prop in H as [_ Hu].
  now apply String.eqb_eq in Hu.
Qed.

Lemma requestMatches_spec (query : Request) (cached : Request * Response) :
  requestMatches query cached = true
  <-> method query = "GET"
      /\ withoutFragment (url query) = withoutFragment (url cached.1)
      /\ Forall (fun name => name <> "*"
                             /\ combinedValue name (headers query)
                                = combinedValue name (headers cached.1))
           (vary cached.2).
Proof.
  unfold requestMatches. split.
  - intros H. apply andb_prop in H as [H Hv]. apply andb_prop in H as [Hm Hu].
    apply String.eqb_eq in Hm, Hu. split; [exact Hm |]. split; [exact Hu |].
    apply Forall_forall. intros name Hin. apply list_elem_of_In in Hin.
    rewrite List.forallb_forall in Hv. specialize (Hv name Hin).
    apply andb_prop in Hv as [Hne Hc].
    apply negb_true_iff, String.eqb_neq in Hne.
    apply bool_decide_eq_true in Hc. auto.
  - intros (Hm & Hu & Hv). rewrite Hm, Hu, !String.eqb_refl. cbn [andb].
    apply List.forallb_forall. intros name Hin. apply list_elem_of_In in Hin.
    rewrite Forall_forall in Hv. destruct (Hv name Hin) as [Hne Hc].
    apply String.eqb_neq in Hne. rewrite Hne. cbn [negb andb].
    now apply bool_decide_eq_true.
Qed.

(** C8. A request matches a cached pair when it is a GET, its URL is the
    URL of the pair up to the fragment, and it agrees with the cached
    request on every header the cached response varies on.  The fetch
    listener answers from the caches exactly when some pair of some cache
    matches the request, with the response of such a pair, and with the
    outcome of the network otherwise.  The install listener opens the cache
    [vibeboard-cache-v1] and no other one and leaves the other caches as
    they are; when the origin has no fragment and every request of the
    manifest gets an answer the cache accepts (a status 200-299 other than
    206, no asterisk in [Vary]), the install succeeds and that cache then
    holds the pairs it held that no request of the manifest matches,
    followed by one pair for each path of the manifest, in the order of the
    manifest, with the answer of the network. *)
Theorem worker_cache_first_and_manifest (cs : list (string * list (Request * Response))) :
  (forall query cached,
      requestMatches query cached = true
      <-> method query = "GET"
          /\ withoutFragment (url query) = withoutFragment (url cached.1)
          /\ Forall (fun name => name <> "*"
                                 /\ combinedValue name (headers query)
                                    = combinedValue name (headers cached.1))
               (vary cached.2))
  /\ (forall request response,
        onFetch network cs request = FromCache response ->
        exists name c cached,
          (name, c) ∈ cs /\ (cached, response) ∈ c
          /\ requestMatches request (cached, response) = true)
  /\ (forall request name c e,
        (name, c) ∈ cs -> e ∈ c -> requestMatches request e = true ->
        exists response, onFetch network cs request = FromCache response)
  /\ (forall request,
        (forall name c e,
            (name, c) ∈ cs -> e ∈ c -> requestMatches request e = false) ->
        onFetch network cs request = FromNetwork (network request))
  /\ (let r := onInstall origin network cs in
      r.2.*1 = (if decide (CACHE_NAME ∈ cs.*1) then cs.*1 else cs.*1 ++ [CACHE_NAME])
      /\ (forall name, name <> CACHE_NAME ->
                       lookupCache name r.2 = lookupCache name cs)
      /\ (withoutFragment origin = origin ->
          Forall (fun p => exists a, network (requestOf origin p) = Some a
                                    /\ cacheable a = true) urlsToCache ->
          r.1 = true
          /\ exists entries,
              Forall2 (fun p e => e.1 = requestOf origin p
                                  /\ network (requestOf origin p) = Some e.2
                                  /\ cacheable e.2 = true) urlsToCache entries
              /\ lookupCache CACHE_NAME r.2
                 = Some (List.filter
                           (fun e => negb (existsb
                                             (fun p => requestMatches (requestOf origin p) e)
                                             urlsToCache))
                           (default [] (lookupCache CACHE_NAME cs))
                         ++ entries))).
Proof.
  split; [exact requestMatches_spec |]. split; [| split; [| split]].
  - intros request response. unfold onFetch.
    destruct (caches_match cs request) as [r |] eqn:E; [| discriminate].
    intros [= <-]. now apply caches_match_Some.
  - intros request name c e Hc He Hm. unfold onFetch.
    destruct (caches_match_hit cs request name c e Hc He Hm) as [r ->]. eauto.
  - intros request H. unfold onFetch.
    now rewrite (proj2 (caches_match_None cs request) H).
  - intros r.
    destruct (caches_open_effects CACHE_NAME cs) as (Hc0 & Hl1 & Hother & _ & _ & Hnames).
    assert (Hr : r = match addAll origin network urlsToCache
                             (caches_open CACHE_NAME cs).1 with
                     | Some cache' =>
                         (true, storeCache CACHE_NAME cache' (caches_open CACHE_NAME cs).2)
                     | None => (false, (caches_open CACHE_NAME cs).2)
                     end).
    { subst r. unfold onInstall. now destruct (caches_open CACHE_NAME cs). }
    split; [| split].
    + rewrite Hr. destruct (addAll _ _ _ _); cbn [snd]; [| exact Hnames].
      rewrite storeCache_names; [exact Hnames |].
      destruct (decide (CACHE_NAME ∈ (caches_open CACHE_NAME cs).2.*1)) as [| Hn];
        [assumption |].
      apply lookupCache_names in Hn. congruence.
    + intros name Hne. rewrite Hr. destruct (addAll _ _ _ _); cbn [snd].
      * rewrite lookupCache_storeCache, (Hother name Hne).
        apply not_eq_sym, String.eqb_neq in Hne. now rewrite Hne.
      * exact (Hother name Hne).
    + intros Ho Hall. destruct (onInstall_success cs Ho Hall) as (ops & _ & Hans & Hrun).
      subst r. rewrite Hrun. cbn [fst snd]. split; [reflexivity |].
      exists ops. split; [exact Hans |].
      now rewrite lookupCache_storeCache, String.eqb_refl, Hc0.
Qed.

End WorkerFacts.

Lemma worker_cache_first_and_manifest_witness :
  let r := ServiceWorker.onInstall "https://vibeboard.example" Samples.online [] in
  r.1 = true
  /\ r.2.*1 = [ServiceWorker.CACHE_NAME]
  /\ (exists entries,
         ServiceWorker.lookupCache ServiceWorker.CACHE_NAME r.2 = Some entries
         /\ entries.*1
            = ServiceWorker.requestOf "https://vibeboard.example"
                <$> ServiceWorker.urlsToCache)
  /\ ServiceWorker.onFetch Samples.down r.2 Samples.toAnchor
     = ServiceWorker.FromCache
         {| ServiceWorker.status := 200;
            ServiceWorker.vary := [];
            ServiceWorker.payload := "https://vibeboard.example/index.html" |}
  /\ ServiceWorker.onFetch Samples.down r.2
       (ServiceWorker.getRequest "https://vibeboard.example/soundz/gehaald.mp3")
     = ServiceWorker.FromNetwork None.
Proof.
  intros r.
  destruct (worker_cache_first_and_manifest "https://vibeboard.example"
              Samples.online []) as (_ & _ & _ & _ & Hn & _ & Hi).
  destruct Hi as (Hok & entries & Hans & Hl).
  - reflexivity.
  - repeat constructor; eexists; split; reflexivity.
  - split; [exact Hok |]. split; [exact Hn |]. split; [| split; reflexivity].
    exists entries. split; [exact Hl |].
    clear Hl. induction Hans as [| p e ps es (H1 & _) _ IH]; [reflexivity |].
    cbn [fmap list_fmap]. now rewrite H1, IH.
Defined.

(** * Further properties of the code *)

(** ** The shape of the page *)

Section ShapeFacts.
Import Js Share.

Lemma wf_frame (w w' : World) :
  body w' = body w -> blob_urls w' = blob_urls w ->
  next_url w' = next_url w -> next_node w' = next_node w ->
  WellFormed w -> WellFormed w'.
Proof.
  intros Hb Hs Hu Hn [H1 H2 H3 H4].
  constructor; rewrite ?Hb, ?Hs, ?Hu, ?Hn; assumption.
Qed.

Lemma wf_initial : WellFormed initial.
Proof.
  constructor; cbn [initial body blob_urls next_url next_node fmap list_fmap].
  - constructor.
  - constructor.
  - constructor.
  - intros u _. apply lookup_empty.
Qed.

Lemma elem_of_filter_bool {A} (p : A -> bool) (l : list A) (x : A) :
  x ∈ List.filter p l <-> x ∈ l /\ p x = true.
Proof. rewrite !list_elem_of_In. apply List.filter_In. Qed.

Lemma NoDup_fmap_filter {A B} (f : A -> B) (p : A -> bool) (l : list A) :
  NoDup (f <$> l) -> NoDup (f <$> List.filter p l).
Proof.
  induction l as [| a l IH]; cbn [List.filter fmap list_fmap]; [auto |].
  intros H. apply NoDup_cons in H as [Hn H].
  destruct (p a); cbn [fmap list_fmap]; [| auto].
  apply NoDup_cons. split; [| auto].
  intros Hin. apply Hn. apply list_elem_of_fmap in Hin as (y & -> & Hy).
  apply elem_of_filter_bool in Hy as [Hy _].
  apply list_elem_of_fmap. eauto.
Qed.

Lemma NoDup_fmap_eq {A B} (f : A -> B) (l : list A) (x y : A) :
  NoDup (f <$> l) -> x ∈ l -> y ∈ l -> f x = f y -> x = y.
Proof.
  induction l as [| a l IH]; cbn [fmap list_fmap].
  - intros _ Hx. now apply elem_of_nil in Hx.
  - intros H Hx Hy E. apply NoDup_cons in H as [Hn H].
    apply elem_of_cons in Hx as [-> | Hx]; apply elem_of_cons in Hy as [-> | Hy];
      auto.
    + exfalso. apply Hn. rewrite E. apply list_elem_of_fmap. eauto.
    + exfalso. apply Hn. rewrite <- E. apply list_elem_of_fmap. eauto.
Qed.

Lemma find_by_id (id : nat) (l : list Modal) (modal : Modal) :
  List.find (fun m => Nat.eqb (modal_id m) id) l = Some modal ->
  modal ∈ l /\ modal_id modal = id.
Proof.
  intros H. apply List.find_some in H as [Hin E].
  apply list_elem_of_In in Hin. apply Nat.eqb_eq in E. auto.
Qed.

(** In a well-formed document a modal is found by its node. *)
Lemma find_own_id (w : World) (modal : Modal) :
  WellFormed w -> modal ∈ body w ->
  List.find (fun m => Nat.eqb (modal_id m) (modal_id modal)) (body w) = Some modal.
Proof.
  intros Hwf Hin.
  destruct (List.find _ (body w)) as [m |] eqn:Hf.
  - apply find_by_id in Hf as [Hm E]. f_equal.
    exact (NoDup_fmap_eq modal_id (body w) m modal (wf_ids w Hwf) Hm Hin E).
  - exfalso. apply list_elem_of_In in Hin.
    pose proof (List.find_none _ _ Hf modal Hin) as E. cbn in E.
    now rewrite Nat.eqb_refl in E.
Qed.

(** Taking the node [id] out of a well-formed document leaves, in order,
    the modals of the other nodes. *)
Lemma remove_effects (id : nat) (w : World) :
  (remove id w).1 = Normal tt
  /\ body (remove id w).2
     = List.filter (fun m => negb (Nat.eqb (modal_id m) id)) (body w)
  /\ blob_urls (remove id w).2 = blob_urls w
  /\ next_url (remove id w).2 = next_url w
  /\ next_node (remove id w).2 = next_node w.
Proof.
  unfold remove. destruct (existsb _ (body w)) eqn:E; cbn [fst snd]; [auto 10 |].
  repeat split. symmetry. apply List.forallb_filter_id.
  apply List.forallb_forall. intros m Hm.
  destruct (Nat.eqb (modal_id m) id) eqn:E'; [| reflexivity].
  assert (existsb (fun m => Nat.eqb (modal_id m) id) (body w) = true)
    by (apply List.existsb_exists; eauto).
  congruence.
Qed.

Lemma wf_after_filter (p : Modal -> bool) (w w' : World) :
  body w' = List.filter p (body w) -> blob_urls w' = blob_urls w ->
  next_url w' = next_url w -> next_node w' = next_node w ->
  WellFormed w -> WellFormed w'.
Proof.
  intros Hb Hs Hu Hn [H1 H2 H3 H4].
  constructor; rewrite ?Hb, ?Hs, ?Hu, ?Hn; auto using NoDup_fmap_filter.
  apply Forall_forall. intros m Hm. apply elem_of_filter_bool in Hm as [Hm _].
  rewrite Forall_forall in H3. auto.
Qed.

Lemma keeps_wf_ret {A} (a : A) : KeepsWellFormed (ret a).
Proof. intros w H; exact H. Qed.

Lemma keeps_wf_throw {A} (e : JsError) : KeepsWellFormed (throw (A := A) e).
Proof. intros w H; exact H. Qed.

Lemma keeps_wf_await {A} (c : Completion A) : KeepsWellFormed (await c).
Proof. intros w H; exact H. Qed.

Lemma keeps_wf_emit (e : Event) : KeepsWellFormed (emit e).
Proof. intros w. now apply wf_frame. Qed.

Lemma keeps_wf_setTimeout (ms : nat) (msg : string) :
  KeepsWellFormed (setTimeout ms msg).
Proof. intros w. now apply wf_frame. Qed.

Lemma keeps_wf_set_clipboard (data : string) : KeepsWellFormed (set_clipboard data).
Proof. intros w. now apply wf_frame. Qed.

Lemma keeps_wf_runTimers : KeepsWellFormed runTimers.
Proof. intros w. now apply wf_frame. Qed.

Lemma keeps_wf_remove (id : nat) : KeepsWellFormed (remove id).
Proof.
  intros w. destruct (remove_effects id w) as (_ & Hb & Hs & Hu & Hn).
  exact (wf_after_filter _ w _ Hb Hs Hu Hn).
Qed.

Lemma keeps_wf_closeModal : KeepsWellFormed closeModal.
Proof.
  intros w. unfold closeModal. destruct (body w); [auto |]. apply keeps_wf_remove.
Qed.

Lemma keeps_wf_bind {A B} (m : M A) (k : A -> M B) :
  KeepsWellFormed m -> (forall a, KeepsWellFormed (k a)) -> KeepsWellFormed (bind m k).
Proof.
  intros Hm Hk w Hw. unfold bind. specialize (Hm w Hw).
  destruct (m w) as [[a | e] w1]; cbn [snd] in *; [| assumption].
  now apply Hk.
Qed.

Lemma keeps_wf_try_catch {A} (m : M A) (h : JsError -> M A) :
  KeepsWellFormed m -> (forall e, KeepsWellFormed (h e)) ->
  KeepsWellFormed (try_catch m h).
Proof.
  intros Hm Hh w Hw. unfold try_catch. specialize (Hm w Hw).
  destruct (m w) as [[a | e] w1]; cbn [snd] in *; [assumption |].
  now apply Hh.
Qed.

End ShapeFacts.

Create HintDb wf.
#[local] Hint Resolve keeps_wf_ret keeps_wf_throw keeps_wf_await keeps_wf_emit
  keeps_wf_setTimeout keeps_wf_set_clipboard keeps_wf_runTimers keeps_wf_remove
  keeps_wf_closeModal : wf.
#[local] Hint Extern 2 (Share.KeepsWellFormed (Share.bind _ _)) =>
  apply keeps_wf_bind; [| intros ?] : wf.
#[local] Hint Extern 2 (Share.KeepsWellFormed (Share.try_catch _ _)) =>
  apply keeps_wf_try_catch; [| intros ?] : wf.

Section ButtonFacts.
Import Js Share.

Lemma aw_frame (w w' : World) : body w' = body w -> AsWritten w -> AsWritten w'.
Proof. unfold AsWritten. now intros ->. Qed.

Lemma aw_filter (p : Modal -> bool) (w w' : World) :
  body w' = List.filter p (body w) -> AsWritten w -> AsWritten w'.
Proof.
  unfold AsWritten. intros -> H. apply Forall_forall. intros m Hm.
  apply elem_of_filter_bool in Hm as [Hm _]. rewrite Forall_forall in H. auto.
Qed.

Lemma keeps_aw_ret {A} (a : A) : KeepsAsWritten (ret a).
Proof. intros w H; exact H. Qed.

Lemma keeps_aw_throw {A} (e : JsError) : KeepsAsWritten (throw (A := A) e).
Proof. intros w H; exact H. Qed.

Lemma keeps_aw_await {A} (c : Completion A) : KeepsAsWritten (await c).
Proof. intros w H; exact H. Qed.

Lemma keeps_aw_emit (e : Event) : KeepsAsWritten (emit e).
Proof. intros w. now apply aw_frame. Qed.

Lemma keeps_aw_setTimeout (ms : nat) (msg : string) :
  KeepsAsWritten (setTimeout ms msg).
Proof. intros w. now apply aw_frame. Qed.

Lemma keeps_aw_set_clipboard (data : string) : KeepsAsWritten (set_clipboard data).
Proof. intros w. now apply aw_frame. Qed.

Lemma keeps_aw_runTimers : KeepsAsWritten runTimers.
Proof. intros w. now apply aw_frame. Qed.

Lemma keeps_aw_remove (id : nat) : KeepsAsWritten (remove id).
Proof.
  intros w. destruct (remove_effects id w) as (_ & Hb & _).
  exact (aw_filter _ w _ Hb).
Qed.

Lemma keeps_aw_closeModal : KeepsAsWritten closeModal.
Proof.
  intros w. unfold closeModal. destruct (body w); [auto |]. apply keeps_aw_remove.
Qed.

Lemma keeps_aw_bind {A B} (m : M A) (k : A -> M B) :
  KeepsAsWritten m -> (forall a, KeepsAsWritten (k a)) -> KeepsAsWritten (bind m k).
Proof.
  intros Hm Hk w Hw. unfold bind. specialize (Hm w Hw).
  destruct (m w) as [[a | e] w1]; cbn [snd] in *; [| assumption].
  now apply Hk.
Qed.

Lemma keeps_aw_try_catch {A} (m : M A) (h : JsError -> M A) :
  KeepsAsWritten m -> (forall e, KeepsAsWritten (h e)) ->
  KeepsAsWritten (try_catch m h).
Proof.
  intros Hm Hh w Hw. unfold try_catch. specialize (Hm w Hw).
  destruct (m w) as [[a | e] w1]; cbn [snd] in *; [assumption |].
  now apply Hh.
Qed.

(** Every handler the template writes compiles. *)
Lemma modalButtons_compile (filename directory : string) (u : ObjectUrl) (k : nat)
      (b : Button) :
  modalButtons filename directory u !! k = Some b -> compiles (onclick b) = true.
Proof.
  unfold modalButtons. intros H.
  do 6 (destruct k as [| k]; [injection H as <-; reflexivity |]).
  discriminate H.
Qed.

End ButtonFacts.

Create HintDb aw.
#[local] Hint Resolve keeps_aw_ret keeps_aw_throw keeps_aw_await keeps_aw_emit
  keeps_aw_setTimeout keeps_aw_set_clipboard keeps_aw_runTimers keeps_aw_remove
  keeps_aw_closeModal : aw.
#[local] Hint Extern 2 (Share.KeepsAsWritten (Share.bind _ _)) =>
  apply keeps_aw_bind; [| intros ?] : aw.
#[local] Hint Extern 2 (Share.KeepsAsWritten (Share.try_catch _ _)) =>
  apply keeps_aw_try_catch; [| intros ?] : aw.

Section SessionFacts.
Import Js Share.

Lemma keeps_wf_dropHandler (id k : nat) : KeepsWellFormed (dropHandler id k).
Proof.
  intros w [H1 H2 H3 H4].
  assert (Hid : forall l : list Modal,
             modal_id <$> List.map
               (fun m =>
                  if Nat.eqb (modal_id m) id
                  then {| modal_id := modal_id m; heading := heading m;
                          buttons :=
                            alter (fun b => {| label := label b; onclick := OnNone |})
                              k (buttons m);
                          listener_url := listener_url m |}
                  else m) l
             = modal_id <$> l).
  { induction l as [| m l IH]; [reflexivity |]. cbn [List.map fmap list_fmap] in *.
    rewrite IH. now destruct (Nat.eqb (modal_id m) id). }
  assert (Hurl : forall l : list Modal,
             listener_url <$> List.map
               (fun m =>
                  if Nat.eqb (modal_id m) id
                  then {| modal_id := modal_id m; heading := heading m;
                          buttons :=
                            alter (fun b => {| label := label b; onclick := OnNone |})
                              k (buttons m);
                          listener_url := listener_url m |}
                  else m) l
             = listener_url <$> l).
  { induction l as [| m l IH]; [reflexivity |]. cbn [List.map fmap list_fmap] in *.
    rewrite IH. now destruct (Nat.eqb (modal_id m) id). }
  constructor; unfold dropHandler; cbn [snd set_body body blob_urls next_url next_node].
  - now rewrite Hid.
  - now rewrite Hurl.
  - clear Hid Hurl H1 H2. induction H3 as [| m l Hm _ IH]; cbn [List.map];
      constructor; [| exact IH].
    now destruct (Nat.eqb (modal_id m) id).
  - exact H4.
Qed.

Lemma keeps_wf_showFileShareOptions (P : Platform) (filename directory : string)
      (b : Blob) :
  KeepsWellFormed (showFileShareOptions P filename directory b).
Proof.
  intros w [H1 H2 H3 H4]. rewrite showFileShareOptions_run. cbn [snd].
  rewrite Forall_forall in H3.
  constructor; cbn [body blob_urls next_url next_node].
  - rewrite fmap_app. apply NoDup_app. split; [assumption |]. split.
    + intros id Hin Hnew. apply list_elem_of_fmap in Hin as (m & -> & Hm).
      apply elem_of_cons in Hnew as [Hnew | Hnew]; [| now apply elem_of_nil in Hnew].
      cbn [modal_id] in Hnew. destruct (H3 m Hm) as (Hlt & _). lia.
    + apply NoDup_singleton.
  - rewrite fmap_app. apply NoDup_app. split; [assumption |]. split.
    + intros u Hin Hnew. apply list_elem_of_fmap in Hin as (m & -> & Hm).
      apply elem_of_cons in Hnew as [Hnew | Hnew]; [| now apply elem_of_nil in Hnew].
      cbn [listener_url] in Hnew. destruct (H3 m Hm) as (_ & Hlt & _). lia.
    + apply NoDup_singleton.
  - apply Forall_app. split.
    + apply Forall_forall. intros m Hm.
      destruct (H3 m Hm) as (Hid & Hu & Hlive).
      repeat split; [lia | lia |].
      rewrite lookup_insert_ne by lia. exact Hlive.
    + constructor; [| constructor]. cbn [modal_id listener_url buttons].
      repeat split; [lia | lia |].
      rewrite lookup_insert_eq. eauto.
  - intros u Hu. rewrite lookup_insert_ne by lia. apply H4. lia.
Qed.

(** The backdrop listener of a modal of the document: its blob URL is
    revoked and its node removed; the other modals keep theirs. *)
Lemma backdrop_effects (modal : Modal) (w : World) :
  let r := backdropListener modal OnBackdrop w in
  r.1 = Normal tt
  /\ body r.2
     = List.filter (fun m => negb (Nat.eqb (modal_id m) (modal_id modal))) (body w)
  /\ blob_urls r.2 = delete (listener_url modal) (blob_urls w)
  /\ next_url r.2 = next_url w
  /\ next_node r.2 = next_node w.
Proof.
  intros r. subst r. unfold backdropListener, revokeObjectURL, bind.
  match goal with
  | |- context [remove ?id ?w0] =>
      destruct (remove_effects id w0) as (Hr & Hb & Hs & Hu & Hn);
      destruct (remove id w0) as [c w1]
  end.
  cbn [fst snd body blob_urls next_url next_node] in *. auto.
Qed.

Lemma keeps_wf_backdrop (modal : Modal) (w : World) :
  WellFormed w -> modal ∈ body w ->
  WellFormed (backdropListener modal OnBackdrop w).2.
Proof.
  intros Hw Hin.
  destruct (backdrop_effects modal w) as (_ & Hb & Hs & Hu & Hn).
  destruct Hw as [H1 H2 H3 H4]. rewrite Forall_forall in H3.
  constructor; rewrite ?Hb, ?Hs, ?Hu, ?Hn; auto using NoDup_fmap_filter.
  - apply Forall_forall. intros m Hm. apply elem_of_filter_bool in Hm as [Hm Hne].
    destruct (H3 m Hm) as (Hid & Hlt & Hlive).
    repeat split; [assumption | assumption |].
    rewrite lookup_delete_ne; [assumption |].
    intros E. symmetry in E.
    pose proof (NoDup_fmap_eq listener_url (body w) m modal H2 Hm Hin E) as ->.
    now rewrite Nat.eqb_refl in Hne.
  - intros u Hle. destruct (decide (listener_url modal = u)) as [-> | Hne].
    + apply lookup_delete_eq.
    + rewrite lookup_delete_ne by assumption. auto.
Qed.

Lemma keeps_wf_writeText (P : Platform) (data : string) :
  KeepsWellFormed (writeText P data).
Proof. unfold writeText. destruct (navigator_clipboard P); auto 10 with wf. Qed.

Lemma keeps_wf_runHandler (P : Platform) (modal : Modal) (h : Handler) :
  KeepsWellFormed (runHandler P modal h).
Proof.
  pose proof (keeps_wf_writeText P) as Hw.
  destruct h; cbn [runHandler];
    unfold downloadAndShare, shareViaEmail, copyFileLink, shareToWhatsApp,
      shareToTwitter, downloadAndShare, showSuccessMessage, showErrorMessage,
      window_open, alert;
    auto 10 with wf.
Qed.

Lemma keeps_wf_click (P : Platform) (id : nat) (target : Target) :
  KeepsWellFormed (click P id target).
Proof.
  intros w Hw. unfold click.
  destruct (List.find _ (body w)) as [modal |] eqn:Hf; [| exact Hw].
  apply find_by_id in Hf as [Hin _].
  pose proof (keeps_wf_runHandler P modal) as Hh.
  destruct target as [| | k].
  - exact (keeps_wf_backdrop modal w Hw Hin).
  - exact Hw.
  - revert w Hw Hin. cbn [backdropListener].
    intros w Hw _. revert w Hw.
    destruct (buttons modal !! k) as [b |];
      [ apply (keeps_wf_bind (bind (try_catch _ _) _) _)
      | apply (keeps_wf_bind (ret tt) _) ];
      auto 10 with wf.
    apply keeps_wf_bind; [auto 10 with wf |].
    intros []. destruct (compiles (onclick b));
      auto using keeps_wf_dropHandler with wf.
Qed.

Lemma keeps_wf_shareSound (P : Platform) (filename directory : string) :
  KeepsWellFormed (shareSound P filename directory).
Proof.
  pose proof (keeps_wf_showFileShareOptions P filename directory) as Hs.
  unfold shareSound, fetchAudioFile, do_fetch, console_error, showErrorMessage, alert.
  apply keeps_wf_try_catch; [| auto 10 with wf].
  apply keeps_wf_bind.
  { apply keeps_wf_bind; [auto 10 with wf |].
    intros response. destruct (negb (ok response)); auto with wf. }
  intros b. apply keeps_wf_bind.
  - unfold tryNativeFileShare, do_share, console_log.
    destruct (navigator_share P) as [share |]; [| auto with wf].
    apply keeps_wf_try_catch; [| auto 10 with wf].
    destruct (canShare P _); auto 10 with wf.
  - intros [|]; auto with wf.
Qed.

Lemma keeps_wf_perform (P : Platform) (a : Action) : KeepsWellFormed (perform P a).
Proof.
  destruct a; cbn [perform];
    auto using keeps_wf_shareSound, keeps_wf_click, keeps_wf_runTimers.
Qed.

Lemma session_keeps_well_formed (P : Platform) (acts : list Action) (w : World) :
  WellFormed w -> WellFormed (session P acts w).
Proof.
  revert w. induction acts as [| a acts IH]; intros w Hw; cbn [session]; [exact Hw |].
  apply IH. now apply keeps_wf_perform.
Qed.

Lemma keeps_aw_showFileShareOptions (P : Platform) (filename directory : string)
      (b : Blob) :
  plain filename = true -> plain directory = true ->
  KeepsAsWritten (showFileShareOptions P filename directory b).
Proof.
  intros Hf Hd w Hw. rewrite showFileShareOptions_run. unfold AsWritten in *.
  cbn [snd body]. apply Forall_app. split; [exact Hw |].
  constructor; [| constructor]. cbn [buttons listener_url].
  rewrite (renderSurface_plain P filename directory _ Hf Hd). cbn [snd]. eauto.
Qed.

Lemma keeps_aw_writeText (P : Platform) (data : string) :
  KeepsAsWritten (writeText P data).
Proof. unfold writeText. destruct (navigator_clipboard P); auto 10 with aw. Qed.

Lemma keeps_aw_runHandler (P : Platform) (modal : Modal) (h : Handler) :
  KeepsAsWritten (runHandler P modal h).
Proof.
  pose proof (keeps_aw_writeText P) as Hw.
  destruct h; cbn [runHandler];
    unfold downloadAndShare, shareViaEmail, copyFileLink, shareToWhatsApp,
      shareToTwitter, downloadAndShare, showSuccessMessage, showErrorMessage,
      window_open, alert;
    auto 10 with aw.
Qed.

Lemma keeps_aw_click (P : Platform) (id : nat) (target : Target) :
  KeepsAsWritten (click P id target).
Proof.
  intros w Hw. unfold click.
  destruct (List.find _ (body w)) as [modal |] eqn:Hf; [| exact Hw].
  apply find_by_id in Hf as [Hin _].
  pose proof (keeps_aw_runHandler P modal) as Hh.
  destruct target as [| | k].
  - destruct (backdrop_effects modal w) as (_ & Hb & _).
    exact (aw_filter _ w _ Hb Hw).
  - exact Hw.
  - assert (Hc : forall b, buttons modal !! k = Some b -> compiles (onclick b) = true).
    { intros b Hk. pose proof Hw as Hall. unfold AsWritten in Hall.
      rewrite Forall_forall in Hall.
      destruct (Hall modal Hin) as (filename & directory & Hbtn).
      rewrite Hbtn in Hk. exact (modalButtons_compile _ _ _ _ _ Hk). }
    revert w Hw Hin Hc. cbn [backdropListener]. intros w Hw _ Hc. revert w Hw.
    destruct (buttons modal !! k) as [b |];
      [ apply (keeps_aw_bind (bind (try_catch _ _) _) _)
      | apply (keeps_aw_bind (ret tt) _) ];
      auto 10 with aw.
    apply keeps_aw_bind; [auto 10 with aw |].
    intros []. rewrite (Hc b eq_refl). auto with aw.
Qed.

Lemma keeps_aw_shareSound (P : Platform) (filename directory : string) :
  plain filename = true -> plain directory = true ->
  KeepsAsWritten (shareSound P filename directory).
Proof.
  intros Hf Hd.
  pose proof (keeps_aw_showFileShareOptions P filename directory) as Hs.
  unfold shareSound, fetchAudioFile, do_fetch, console_error, showErrorMessage, alert.
  apply keeps_aw_try_catch; [| auto 10 with aw].
  apply keeps_aw_bind.
  { apply keeps_aw_bind; [auto 10 with aw |].
    intros response. destruct (negb (ok response)); auto with aw. }
  intros b. apply keeps_aw_bind.
  - unfold tryNativeFileShare, do_share, console_log.
    destruct (navigator_share P) as [share |]; [| auto with aw].
    apply keeps_aw_try_catch; [| auto 10 with aw].
    destruct (canShare P _); auto 10 with aw.
  - intros [|]; auto with aw.
Qed.

Lemma session_keeps_as_written (P : Platform) (acts : list Action) (w : World) :
  Forall PlainShare acts -> AsWritten w -> AsWritten (session P acts w).
Proof.
  revert w. induction acts as [| a acts IH]; intros w Hp Hw; cbn [session];
    [exact Hw |].
  apply Forall_cons in Hp as [Ha Hp]. apply IH; [exact Hp |].
  destruct a as [filename directory | id target |]; cbn [perform].
  - destruct Ha as [Hf Hd]. now apply keeps_aw_shareSound.
  - now apply keeps_aw_click.
  - now apply keeps_aw_runTimers.
Qed.



End SessionFacts.

(** ** Which modal a click closes *)

Section ClosingFacts.
Import Js Share.

Lemma filter_others_of_first (first : Modal) (rest : list Modal) :
  NoDup (modal_id <$> first :: rest) ->
  List.filter (fun m => negb (Nat.eqb (modal_id m) (modal_id first))) rest = rest.
Proof.
  cbn [fmap list_fmap]. intros H. apply NoDup_cons in H as [Hn _].
  apply List.forallb_filter_id, List.forallb_forall. intros m Hm.
  apply list_elem_of_In in Hm.
  destruct (Nat.eqb (modal_id m) (modal_id first)) eqn:E; [| reflexivity].
  apply Nat.eqb_eq in E. exfalso. apply Hn. rewrite <- E.
  apply list_elem_of_fmap. eauto.
Qed.

(** Every action handler ends in [closeModal], the document being until
    then as the handler found it. *)
Lemma action_handler_ends_in_closeModal (P : Platform) (modal : Modal) (h : Handler)
      (w : World) :
  isAction h = true ->
  exists w1, runHandler P modal h w = closeModal w1
             /\ body w1 = body w
             /\ blob_urls w1 = blob_urls w.
Proof.
  intros Hh. destruct h; try discriminate Hh; cbn [runHandler].
  - eexists. split; [reflexivity | split; reflexivity].
  - eexists. split; [reflexivity | split; reflexivity].
  - unfold copyFileLink.
    destruct (copy_attempt_run P filename
                (fileUrlOf (audioShareManager P) directory filename) w)
      as (w1 & Hrun & Hb & _ & _).
    exists w1. unfold bind at 1. rewrite Hrun. split; [reflexivity |].
    split; [exact Hb |].
    pose proof (keeps_try_catch
                  (writeText P (fileUrlOf (audioShareManager P) directory filename) ;;
                   showSuccessMessage
                     (copiedText (fileUrlOf (audioShareManager P) directory filename)))%js
                  (fun _ => showErrorMessage filename "Could not copy to clipboard"))
      as Hk.
    specialize (Hk ltac:(unfold showSuccessMessage, alert;
                         auto using keeps_writeText with keeps)
                   ltac:(intros; unfold showErrorMessage, alert; auto with keeps) w).
    now rewrite Hrun in Hk.
  - eexists. split; [reflexivity | split; reflexivity].
  - eexists. split; [reflexivity | split; reflexivity].
Qed.

(** The first five buttons of a surface opened for a plain file name and
    directory are the five actions, the sixth is Close. *)
Lemma plain_surface_buttons (P : Platform) (filename directory : string)
      (u : ObjectUrl) (k : nat) :
  plain filename = true -> plain directory = true ->
  (k < 5 ->
   exists h, onclick <$> (renderSurface P filename directory u).2 !! k = Some h
             /\ isAction h = true)
  /\ onclick <$> (renderSurface P filename directory u).2 !! 5 = Some OnRemoveClosest.
Proof.
  intros Hf Hd. rewrite (renderSurface_plain P _ _ u Hf Hd). cbn [snd].
  split; [| reflexivity]. intros Hk. unfold modalButtons.
  do 5 (destruct k as [| k]; [eexists; split; reflexivity |]). lia.
Qed.

(** X2. In a well-formed document with at least one modal, a button whose
    [onclick] is one of the five action calls (download, email, copy link,
    WhatsApp, Twitter), in whichever open modal it stands, closes the first
    modal of the document: [closeModal] takes what
    [querySelector('.share-modal')] finds, not the modal of the button.
    With two surfaces open, an action of the second one closes the first
    and leaves the second open. *)
Theorem action_button_closes_first_modal
        (P : Platform) (w : World) (first modal : Modal) (rest : list Modal)
        (k : nat) (h : Handler) :
  WellFormed w ->
  body w = first :: rest ->
  modal ∈ body w ->
  onclick <$> buttons modal !! k = Some h ->
  isAction h = true ->
  (click P (modal_id modal) (OnButton k) w).1 = Normal tt
  /\ body (click P (modal_id modal) (OnButton k) w).2 = rest.
Proof.
  intros Hw Hbody Hin Hk Hact. unfold click. rewrite (find_own_id w modal Hw Hin).
  destruct (buttons modal !! k) as [b |]; [| discriminate Hk].
  injection Hk as Hk. rewrite Hk.
  destruct (action_handler_ends_in_closeModal P modal h w Hact)
    as (w1 & Hrun & Hb1 & _).
  rewrite Hbody in Hb1.
  assert (Hc : compiles h = true) by (destruct h; try discriminate Hact; reflexivity).
  rewrite Hc.
  unfold bind, try_catch, backdropListener, ret.
  rewrite Hrun, (closeModal_first first rest w1 Hb1).
  cbn [fst snd body record set_body]. split; [reflexivity |].
  apply filter_others_of_first. rewrite <- Hbody. apply (wf_ids w Hw).
Qed.

Lemma action_button_closes_first_modal_witness :
  let w := session Samples.desktop
             [DoShare "gehaald" "sounds"; DoShare "gehaald" "sounds"] initial in
  modal_id <$> body w = [0; 1]
  /\ modal_id <$> body (click Samples.desktop 1 (OnButton 3) w).2 = [1].
Proof.
  intros w. split; [reflexivity |].
  pose (surface := fun n =>
          {| modal_id := n;
             heading := "Share " +:+ dq +:+ "gehaald" +:+ dq;
             buttons := modalButtons "gehaald" "sounds" n;
             listener_url := n |}).
  assert (Hb : body w = [surface 0; surface 1]) by reflexivity.
  assert (Hw : WellFormed w).
  { apply session_keeps_well_formed, wf_initial. }
  destruct (action_button_closes_first_modal Samples.desktop w (surface 0)
              (surface 1) [surface 1] 3 (OnShareToWhatsApp "gehaald" "sounds")
              Hw Hb) as [_ H].
  - rewrite Hb. apply elem_of_cons. right. apply elem_of_cons. left. reflexivity.
  - reflexivity.
  - reflexivity.
  - exact (f_equal (fmap modal_id) H).
Defined.

(** In a well-formed document, what is left once the node of [modal] is
    filtered out is every other modal. *)
Lemma others_after_filter (w : World) (modal m : Modal) :
  WellFormed w -> modal ∈ body w ->
  m ∈ List.filter (fun x => negb (Nat.eqb (modal_id x) (modal_id modal))) (body w)
  <-> m ∈ body w /\ m <> modal.
Proof.
  intros Hw Hin. rewrite elem_of_filter_bool. split; intros [Hm Hne]; split; auto.
  - intros ->. now rewrite Nat.eqb_refl in Hne.
  - destruct (Nat.eqb (modal_id m) (modal_id modal)) eqn:E; [| reflexivity].
    apply Nat.eqb_eq in E. exfalso. apply Hne.
    exact (NoDup_fmap_eq modal_id (body w) m modal (wf_ids w Hw) Hm Hin E).
Qed.

(** X3. In a well-formed document, a click on the backdrop of an open modal
    revokes the blob URL of that modal and of no other, and takes that modal
    and no other out of the document; the modals that stay keep a live blob
    URL.  A click on the content box of the modal changes nothing. *)
Theorem backdrop_click_closes_own_modal (P : Platform) (w : World) (modal : Modal) :
  WellFormed w ->
  modal ∈ body w ->
  let r := click P (modal_id modal) OnBackdrop w in
  r.1 = Normal tt
  /\ blob_urls r.2 = delete (listener_url modal) (blob_urls w)
  /\ (forall m, m ∈ body r.2 <-> m ∈ body w /\ m <> modal)
  /\ (forall m, m ∈ body r.2 -> is_Some (blob_urls r.2 !! listener_url m))
  /\ click P (modal_id modal) OnContent w = (Normal tt, w).
Proof.
  intros Hw Hin r.
  assert (Hr : r = backdropListener modal OnBackdrop w).
  { subst r. unfold click. rewrite (find_own_id w modal Hw Hin). reflexivity. }
  pose proof (keeps_wf_backdrop modal w Hw Hin) as Hw'.
  destruct (backdrop_effects modal w) as (H1 & Hb & Hs & _).
  rewrite Hr. split; [exact H1 |]. split; [exact Hs |]. split; [| split].
  - intros m. rewrite Hb. now apply others_after_filter.
  - intros m Hm. pose proof (wf_modals _ Hw') as Hall.
    rewrite Forall_forall in Hall. now destruct (Hall m Hm) as (_ & _ & Hlive).
  - unfold click. rewrite (find_own_id w modal Hw Hin). reflexivity.
Qed.

Lemma backdrop_click_closes_own_modal_witness :
  let w := session Samples.desktop
             [DoShare "gehaald" "sounds"; DoShare "gehaald" "sounds"] initial in
  let r := click Samples.desktop 0 OnBackdrop w in
  blob_urls r.2 !! 0 = None /\ blob_urls r.2 !! 1 = Some Samples.gehaaldBlob.
Proof.
  intros w r.
  pose (surface := fun n =>
          {| modal_id := n;
             heading := "Share " +:+ dq +:+ "gehaald" +:+ dq;
             buttons := modalButtons "gehaald" "sounds" n;
             listener_url := n |}).
  assert (Hb : body w = [surface 0; surface 1]) by reflexivity.
  assert (Hw : WellFormed w) by apply session_keeps_well_formed, wf_initial.
  destruct (backdrop_click_closes_own_modal Samples.desktop w (surface 0) Hw)
    as (_ & Hs & _).
  - rewrite Hb. apply elem_of_cons. left. reflexivity.
  - change (blob_urls r.2 = delete 0 (blob_urls w)) in Hs. rewrite Hs.
    split; reflexivity.
Defined.



(** X5. In a well-formed world the blob URL [showFileShareOptions] creates
    is fresh: it was not live before, it now refers to the fetched blob,
    every other blob URL refers to what it referred to, and the store has
    one entry more. *)
Theorem new_surface_gets_fresh_url
        (P : Platform) (filename directory : string) (b : Blob) (w : World) :
  WellFormed w ->
  let w' := (showFileShareOptions P filename directory b w).2 in
  blob_urls w !! next_url w = None
  /\ blob_urls w' !! next_url w = Some b
  /\ (forall u, u <> next_url w -> blob_urls w' !! u = blob_urls w !! u)
  /\ size (blob_urls w') = S (size (blob_urls w)).
Proof.
  intros Hw w'. subst w'. rewrite showFileShareOptions_run. cbn [snd blob_urls].
  assert (Hfresh : blob_urls w !! next_url w = None) by (apply (wf_store w Hw); lia).
  split; [exact Hfresh |]. split; [apply lookup_insert_eq |]. split.
  - intros u Hu. now rewrite lookup_insert_ne.
  - now apply map_size_insert_None.
Qed.

Lemma new_surface_gets_fresh_url_witness :
  let w := session Samples.desktop [DoShare "gehaald" "sounds"] initial in
  size (blob_urls (showFileShareOptions Samples.desktop "gehaald" "sounds"
                     Samples.gehaaldBlob w).2) = 2.
Proof.
  intros w.
  assert (Hw : WellFormed w) by apply session_keeps_well_formed, wf_initial.
  destruct (new_surface_gets_fresh_url Samples.desktop "gehaald" "sounds"
              Samples.gehaaldBlob w Hw) as (_ & _ & _ & H).
  rewrite H. reflexivity.
Defined.

End ClosingFacts.

(** ** The tiers, end to end *)

Section TierFacts.
Import Js Share.

(** X6. [tryNativeFileShare] never throws and never alerts.  It calls
    [navigator.share] at most once: a file share that is rejected is not
    tried again as a text-only share.  It answers [true] exactly when that
    one call is accepted, a file is attached only when the capability check
    accepted it, and the document and the blob URL store are left as they
    are. *)
Theorem tryNativeFileShare_one_call (P : Platform) (filename : string) (b : Blob)
        (w : World) :
  let r := tryNativeFileShare P filename b w in
  let probe := {| title := None; text := None;
                  files := Some [audioFile filename b] |} in
  exists shared evs,
    r.1 = Normal shared
    /\ trace r.2 = trace w ++ evs
    /\ alerts evs = []
    /\ length (shares evs) <= 1
    /\ (shared = true <->
        exists share d, navigator_share P = Some share
                        /\ shares evs = [d] /\ share d = Normal tt)
    /\ (forall d, d ∈ shares evs -> files d <> None -> canShare P probe = true)
    /\ body r.2 = body w
    /\ blob_urls r.2 = blob_urls w.
Proof.
  intros r probe. subst r.
  destruct (navigator_share P) as [share |] eqn:Hs.
  - rewrite (tryNativeFileShare_present _ _ _ _ _ Hs). fold probe.
    destruct (canShare P probe) eqn:Hc;
      match goal with |- context [share ?d] => destruct (share d) as [[] | e] eqn:Hd end;
      eexists _, _; cbn [fst snd record trace body blob_urls];
      (split; [reflexivity |]); (split; [reflexivity |]);
      (split; [reflexivity |]); (split; [cbn; lia |]);
      (split; [| split; [| auto]]).
    + split; [intros _ | reflexivity]. eexists _, _. repeat split; eauto.
    + intros d Hin _. reflexivity.
    + split; [discriminate |]. intros (share' & d & [= <-] & [= <-] & Hacc).
      simpl in Hd. congruence.
    + intros d Hin _. reflexivity.
    + split; [intros _ | reflexivity]. eexists _, _. repeat split; eauto.
    + intros d Hin Hfile. cbn in Hin. apply elem_of_cons in Hin as [-> | Hin];
        [now cbn in Hfile | now apply elem_of_nil in Hin].
    + split; [discriminate |]. intros (share' & d & [= <-] & [= <-] & Hacc).
      simpl in Hd. congruence.
    + intros d Hin Hfile. cbn in Hin. apply elem_of_cons in Hin as [-> | Hin];
        [now cbn in Hfile | now apply elem_of_nil in Hin].
  - rewrite (tryNativeFileShare_absent _ _ _ _ Hs).
    exists false, []. cbn [fst snd]. rewrite app_nil_r.
    repeat split; try reflexivity; try (cbn; lia); try discriminate.
    + intros (share & d & [=] & _).
    + intros d Hin. now apply elem_of_nil in Hin.
Qed.

(** X7. When the fetch succeeds and the share sheet accepts the call,
    [shareSound] is over after the request and the one share call: no blob
    URL is created, no modal is built, nothing is written to the console
    and no alert is shown. *)
Theorem shareSound_native_success
        (P : Platform) (filename directory : string) (b : Blob)
        (share : ShareData -> Completion unit) (w : World) :
  FetchYields P (directory +:+ "/" +:+ filename +:+ ".mp3") b ->
  navigator_share P = Some share ->
  (forall d, share d = Normal tt) ->
  exists d,
    shareSound P filename directory w
    = (Normal tt,
       record [EFetch (directory +:+ "/" +:+ filename +:+ ".mp3"); EShare d] w)
    /\ title d = Some ("Vibeboard Sound: " +:+ filename).
Proof.
  intros Hf Hs Hacc.
  rewrite (shareSound_fetched _ _ _ _ _ Hf).
  rewrite (tryNativeFileShare_present _ _ _ _ _ Hs).
  match goal with |- context [share ?d] => rewrite (Hacc d); exists d end.
  rewrite record_record. split; [reflexivity |].
  now destruct (canShare P _).
Qed.

Lemma shareSound_native_success_witness :
  blob_urls (shareSound Samples.phone "gehaald" "sounds" initial).2 = ∅
  /\ body (shareSound Samples.phone "gehaald" "sounds" initial).2 = [].
Proof.
  destruct (shareSound_native_success Samples.phone "gehaald" "sounds"
              Samples.gehaaldBlob (fun _ => Normal tt) initial) as (d & H & _).
  - exists {| ok := true; blob := Normal Samples.gehaaldBlob |}.
    repeat split; reflexivity.
  - reflexivity.
  - reflexivity.
  - rewrite H. split; reflexivity.
Defined.

(** When the native tier gives up, [shareSound] is [showFileShareOptions]
    run after the events of the first two tiers. *)
Lemma shareSound_demoted (P : Platform) (filename directory : string) (b : Blob)
      (w : World) :
  FetchYields P (directory +:+ "/" +:+ filename +:+ ".mp3") b ->
  (navigator_share P = None
   \/ exists share, navigator_share P = Some share
                    /\ forall d, exists e, share d = Throw e) ->
  exists evs,
    shareSound P filename directory w
    = showFileShareOptions P filename directory b (record evs w).
Proof.
  intros Hf Hs. rewrite (shareSound_fetched _ _ _ _ _ Hf).
  destruct Hs as [Hs | (share & Hs & Hrej)].
  - rewrite (tryNativeFileShare_absent _ _ _ _ Hs). eauto.
  - rewrite (tryNativeFileShare_present _ _ _ _ _ Hs).
    match goal with |- context [share ?d] => destruct (Hrej d) as [e ->] end.
    rewrite record_record. eauto.
Qed.

(** X8. [shareSound] does not look for a surface that is already open: two
    requests that both reach the manual tier leave two modals in the
    document, one after the other, each with a node and a blob URL of its
    own, and both blob URLs are live.  Each modal holds what the markup
    gives for its file name and directory: for plain ones the heading with
    the file name and the six buttons of the template. *)
Theorem shareSound_twice_two_surfaces
        (P : Platform) (f1 d1 f2 d2 : string) (b1 b2 : Blob) (w : World) :
  FetchYields P (d1 +:+ "/" +:+ f1 +:+ ".mp3") b1 ->
  FetchYields P (d2 +:+ "/" +:+ f2 +:+ ".mp3") b2 ->
  (navigator_share P = None
   \/ exists share, navigator_share P = Some share
                    /\ forall d, exists e, share d = Throw e) ->
  let w2 := session P [DoShare f1 d1; DoShare f2 d2] w in
  body w2
  = body w
    ++ [ {| modal_id := next_node w;
            heading := (renderSurface P f1 d1 (next_url w)).1;
            buttons := (renderSurface P f1 d1 (next_url w)).2;
            listener_url := next_url w |};
         {| modal_id := S (next_node w);
            heading := (renderSurface P f2 d2 (S (next_url w))).1;
            buttons := (renderSurface P f2 d2 (S (next_url w))).2;
            listener_url := S (next_url w) |} ]
  /\ blob_urls w2 !! next_url w = Some b1
  /\ blob_urls w2 !! S (next_url w) = Some b2
  /\ (plain f1 = true -> plain d1 = true ->
      renderSurface P f1 d1 (next_url w)
      = ("Share " +:+ dq +:+ f1 +:+ dq, modalButtons f1 d1 (next_url w)))
  /\ (plain f2 = true -> plain d2 = true ->
      renderSurface P f2 d2 (S (next_url w))
      = ("Share " +:+ dq +:+ f2 +:+ dq, modalButtons f2 d2 (S (next_url w)))).
Proof.
  intros H1 H2 Hs w2.
  cut (body w2
       = body w
         ++ [ {| modal_id := next_node w;
                 heading := (renderSurface P f1 d1 (next_url w)).1;
                 buttons := (renderSurface P f1 d1 (next_url w)).2;
                 listener_url := next_url w |};
              {| modal_id := S (next_node w);
                 heading := (renderSurface P f2 d2 (S (next_url w))).1;
                 buttons := (renderSurface P f2 d2 (S (next_url w))).2;
                 listener_url := S (next_url w) |} ]
       /\ blob_urls w2 !! next_url w = Some b1
       /\ blob_urls w2 !! S (next_url w) = Some b2).
  { intros (Hb & Hu1 & Hu2). auto 10 using renderSurface_plain. }
  subst w2. cbn [session perform].
  destruct (shareSound_demoted P f1 d1 b1 w H1 Hs) as (evs1 & ->).
  rewrite showFileShareOptions_run. cbn [snd].
  match goal with
  | |- context [shareSound P f2 d2 ?w1] =>
      destruct (shareSound_demoted P f2 d2 b2 w1 H2 Hs) as (evs2 & ->)
  end.
  rewrite showFileShareOptions_run.
  cbn [snd record body blob_urls next_url next_node].
  split; [now rewrite <- app_assoc |]. split.
  - rewrite lookup_insert_ne by lia. apply lookup_insert_eq.
  - apply lookup_insert_eq.
Qed.

Lemma shareSound_twice_two_surfaces_witness :
  modal_id <$> body (session Samples.refusing
                       [DoShare "gehaald" "sounds"; DoShare "gehaald" "sounds"]
                       initial) = [0; 1]
  /\ renderSurface Samples.refusing "gehaald" "sounds" 1
     = ("Share " +:+ dq +:+ "gehaald" +:+ dq, modalButtons "gehaald" "sounds" 1).
Proof.
  destruct (shareSound_twice_two_surfaces Samples.refusing "gehaald" "sounds"
              "gehaald" "sounds" Samples.gehaaldBlob Samples.gehaaldBlob initial)
    as (H & _ & _ & _ & H2).
  - exists {| ok := true; blob := Normal Samples.gehaaldBlob |}.
    repeat split; reflexivity.
  - exists {| ok := true; blob := Normal Samples.gehaaldBlob |}.
    repeat split; reflexivity.
  - right. eexists. split; [reflexivity |]. intros d. eexists. reflexivity.
  - split; [rewrite H; reflexivity | exact (H2 eq_refl eq_refl)].
Defined.

End TierFacts.

(** ** The actions of the surface *)

Section ActionFacts.
Import Js Share.

Lemma closeModal_frame (w : World) :
  timers (closeModal w).2 = timers w
  /\ blob_urls (closeModal w).2 = blob_urls w
  /\ body (closeModal w).2
     = match body w with
       | [] => []
       | first :: rest =>
           List.filter (fun m => negb (Nat.eqb (modal_id m) (modal_id first))) rest
       end.
Proof.
  destruct (body w) as [| first rest] eqn:Hb.
  - unfold closeModal. rewrite Hb. auto.
  - rewrite (closeModal_first first rest w Hb). auto.
Qed.

Lemma downloadInstructions_names (filename : string) :
  contains (downloadInstructions filename) (filename +:+ ".mp3").
Proof.
  exists ("✅ " +:+ dq),
    (dq +:+ " downloaded!" +:+ nl +:+ nl
     +:+ "Now you can:" +:+ nl
     +:+ "• Share it directly to Instagram Stories" +:+ nl
     +:+ "• Send via Messenger" +:+ nl
     +:+ "• Add to any social media app" +:+ nl
     +:+ "• Send via AirDrop/Bluetooth").
  unfold downloadInstructions. now rewrite !append_assoc.
Qed.

Lemma alerts_after_timers (t : list Event) (msgs : list string) :
  alerts (t ++ (EAlert <$> msgs)) = alerts t ++ msgs.
Proof.
  unfold alerts. rewrite omap_app. f_equal.
  induction msgs as [| x l IH]; [reflexivity |].
  change (x :: omap (fun e => match e with EAlert m => Some m | _ => None end)
                 (EAlert <$> l) = x :: l).
  now rewrite IH.
Qed.

Lemma downloadAndShare_trace (filename : string) (downloadUrl : ObjectUrl)
      (w : World) :
  (downloadAndShare filename downloadUrl w).1 = Normal tt
  /\ timers (downloadAndShare filename downloadUrl w).2
     = timers w ++ [(500, downloadInstructions filename)]
  /\ trace (downloadAndShare filename downloadUrl w).2
     = trace w
       ++ [EDownload downloadUrl (filename +:+ ".mp3");
           ESetTimeout 500 (downloadInstructions filename)]
       ++ match body w with
          | [] => []
          | first :: _ => [ERemoveModal (modal_id first)]
          end.
Proof.
  set (w1 := {| body := body w; blob_urls := blob_urls w; next_url := next_url w;
                next_node := next_node w; clipboard := clipboard w;
                timers := timers w ++ [(500, downloadInstructions filename)];
                trace := (trace w ++ [EDownload downloadUrl (filename +:+ ".mp3")])
                         ++ [ESetTimeout 500 (downloadInstructions filename)] |}).
  change (downloadAndShare filename downloadUrl w) with (closeModal w1).
  destruct (closeModal_effects w1) as (H1 & _ & Ht).
  destruct (closeModal_frame w1) as (Htm & _ & _).
  split; [exact H1 |]. split; [exact Htm |].
  rewrite Ht. cbn [w1 trace body]. now rewrite <- !app_assoc.
Qed.

Lemma shareViaEmail_trace (P : Platform) (filename : string)
      (downloadUrl : ObjectUrl) (w : World) :
  (shareViaEmail (audioShareManager P) filename downloadUrl w).1 = Normal tt
  /\ trace (shareViaEmail (audioShareManager P) filename downloadUrl w).2
     = trace w
       ++ [EWindowOpen ("mailto:?subject=" +:+ encodeURIComponent (emailSubject filename)
                        +:+ "&body="
                        +:+ encodeURIComponent (emailBody (audioShareManager P) filename));
           EDownload downloadUrl (filename +:+ ".mp3");
           ESetTimeout 500 (downloadInstructions filename)]
       ++ match body w with
          | [] => []
          | first :: _ => [ERemoveModal (modal_id first)]
          end.
Proof.
  set (link := "mailto:?subject=" +:+ encodeURIComponent (emailSubject filename)
               +:+ "&body="
               +:+ encodeURIComponent (emailBody (audioShareManager P) filename)).
  change (shareViaEmail (audioShareManager P) filename downloadUrl w)
    with (downloadAndShare filename downloadUrl (record [EWindowOpen link] w)).
  destruct (downloadAndShare_trace filename downloadUrl (record [EWindowOpen link] w))
    as (H1 & _ & Ht).
  split; [exact H1 |]. rewrite Ht. cbn [record trace body].
  now rewrite <- !app_assoc.
Qed.

(** X9. [downloadAndShare] ends normally and starts one download, of the
    blob URL it is given, under the name [{identifier}.mp3].  It shows no
    alert itself: the instructions, which name the file, are left to a
    500 ms timer, so the modal is gone before they appear; once the timers
    fire, the instructions are the last alert. *)
Theorem downloadAndShare_effects (filename : string) (downloadUrl : ObjectUrl)
        (w : World) :
  let r := downloadAndShare filename downloadUrl w in
  r.1 = Normal tt
  /\ trace r.2
     = trace w
       ++ [EDownload downloadUrl (filename +:+ ".mp3");
           ESetTimeout 500 (downloadInstructions filename)]
       ++ match body w with
          | [] => []
          | first :: _ => [ERemoveModal (modal_id first)]
          end
  /\ alerts (trace r.2) = alerts (trace w)
  /\ timers r.2 = timers w ++ [(500, downloadInstructions filename)]
  /\ alerts (trace (runTimers r.2).2)
     = alerts (trace w) ++ (timers w).*2 ++ [downloadInstructions filename]
  /\ contains (downloadInstructions filename) (filename +:+ ".mp3").
Proof.
  intros r. destruct (downloadAndShare_trace filename downloadUrl w) as (H1 & Htm & Ht).
  fold r in H1, Htm, Ht.
  assert (Halerts : alerts (trace r.2) = alerts (trace w)).
  { rewrite Ht. unfold alerts. rewrite !omap_app.
    destruct (body w); cbn [omap]; now rewrite ?app_nil_r. }
  split; [exact H1 |]. split; [exact Ht |]. split; [exact Halerts |].
  split; [exact Htm |]. split; [| apply downloadInstructions_names].
  unfold runTimers. cbn [snd trace].
  rewrite alerts_after_timers, Halerts, Htm, fmap_app. reflexivity.
Qed.

(** X10. [shareViaEmail] opens the mail composer first and then does what
    the download action does: one download of the blob URL under the name
    [{identifier}.mp3], the instructions left to a timer, and the first
    modal closed.  It ends normally and shows no alert itself. *)
Theorem shareViaEmail_also_downloads (P : Platform) (filename : string)
        (downloadUrl : ObjectUrl) (w : World) :
  let this := audioShareManager P in
  let r := shareViaEmail this filename downloadUrl w in
  r.1 = Normal tt
  /\ trace r.2
     = trace w
       ++ [EWindowOpen ("mailto:?subject=" +:+ encodeURIComponent (emailSubject filename)
                        +:+ "&body=" +:+ encodeURIComponent (emailBody this filename));
           EDownload downloadUrl (filename +:+ ".mp3");
           ESetTimeout 500 (downloadInstructions filename)]
       ++ match body w with
          | [] => []
          | first :: _ => [ERemoveModal (modal_id first)]
          end
  /\ downloads (trace r.2) = downloads (trace w) ++ [(downloadUrl, filename +:+ ".mp3")]
  /\ alerts (trace r.2) = alerts (trace w).
Proof.
  intros this r. destruct (shareViaEmail_trace P filename downloadUrl w) as (H1 & Ht).
  fold this in H1, Ht. fold r in H1, Ht.
  split; [exact H1 |]. split; [exact Ht |].
  rewrite Ht. unfold downloads, alerts. rewrite !omap_app.
  destruct (body w); cbn [omap]; rewrite ?app_nil_r; auto.
Qed.

End ActionFacts.

Section ClipboardFacts.
Import Js Share.

(** X12. In any state of the document, [copyFileLink] ends normally and
    shows exactly one alert: the success notice quoting the URL when the
    clipboard takes the write, and otherwise the same fixed error text,
    which does not carry the reason the platform gave, be it a rejected
    write or a missing clipboard API.  The clipboard holds the URL once the
    write is accepted and keeps its content when the write is rejected or
    the clipboard API is missing; the blob URL store is never touched. *)
Theorem copyFileLink_one_notice (P : Platform) (directory filename : string)
        (w : World) :
  let fileUrl := fileUrlOf (audioShareManager P) directory filename in
  let r := copyFileLink P (audioShareManager P) directory filename w in
  r.1 = Normal tt
  /\ alerts (trace r.2)
     = alerts (trace w)
       ++ [ match navigator_clipboard P with
            | Some write =>
                match write fileUrl with
                | Normal _ => "✅ " +:+ copiedText fileUrl
                | Throw _ => errorText filename "Could not copy to clipboard"
                end
            | None => errorText filename "Could not copy to clipboard"
            end ]
  /\ contains (copiedText fileUrl) fileUrl
  /\ clipboard r.2
     = match navigator_clipboard P with
       | Some write =>
           match write fileUrl with
           | Normal _ => Some fileUrl
           | Throw _ => clipboard w
           end
       | None => clipboard w
       end
  /\ blob_urls r.2 = blob_urls w.
Proof.
  intros fileUrl r.
  destruct (copy_attempt_run P filename fileUrl w) as (w1 & Hrun & Hb & Hc & Ht).
  assert (Hr : r = closeModal w1).
  { subst r. unfold copyFileLink. fold fileUrl. unfold bind at 1. now rewrite Hrun. }
  destruct (closeModal_effects w1) as (H1 & Hc' & Ht').
  split; [now rewrite Hr |]. split; [| split; [| split]].
  - rewrite Hr, Ht', Ht. unfold alerts. rewrite !omap_app.
    destruct (navigator_clipboard P) as [write |];
      [destruct (write fileUrl) |]; destruct (body w1);
      cbn [omap]; rewrite ?app_nil_r; reflexivity.
  - unfold copiedText.
    exists ("File link copied!" +:+ nl +:+ nl +:+ dq),
      (dq +:+ nl +:+ nl +:+ "Paste this anywhere to share the audio file.").
    now rewrite !append_assoc.
  - now rewrite Hr, Hc', Hc.
  - subst r. apply (keeps_runHandler P
                     {| modal_id := 0; heading := EmptyString; buttons := [];
                        listener_url := 0 |}
                     (OnCopyFileLink directory filename)).
Qed.

End ClipboardFacts.

(** ** The encoder of the links *)

Section EncoderFacts.
Import Js.

(** X13. The output of [encodeURIComponent] is made of the unreserved
    characters [A-Z a-z 0-9 - _ . ! ~ * ' ( )] and of [%] only.  So the
    text put after [?text=], [?subject=] and [&body=] holds no [&], [=],
    [#], [?], space or line feed that would cut the parameter short. *)
Theorem encodeURIComponent_alphabet (s : string) (x : ascii) :
  x ∈ String.list_ascii_of_string (encodeURIComponent s) ->
  (x = "%"%char \/ unreserved x = true)
  /\ x <> "&"%char /\ x <> "="%char /\ x <> "#"%char /\ x <> "?"%char
  /\ x <> " "%char /\ x <> "010"%char.
Proof.
  intros Hin.
  assert (H : x = "%"%char \/ unreserved x = true).
  { induction s as [| c s IH]; cbn [encodeURIComponent] in Hin.
    - now apply elem_of_nil in Hin.
    - rewrite chars_app in Hin. apply elem_of_app in Hin as [Hin | Hin]; [| auto].
      destruct (unreserved c) eqn:Hc.
      + cbn in Hin. apply elem_of_cons in Hin as [-> | Hin]; [auto |].
        now apply elem_of_nil in Hin.
      + now apply percentEncode_chars in Hin. }
  split; [exact H |].
  repeat split; intros ->; destruct H as [H | H]; discriminate H.
Qed.

Lemma encodeURIComponent_alphabet_witness :
  "%"%char ∈ String.list_ascii_of_string (encodeURIComponent "a&b")
  /\ ("%"%char = "%"%char \/ unreserved "%"%char = true).
Proof.
  assert (Hin : "%"%char ∈ String.list_ascii_of_string (encodeURIComponent "a&b")).
  { apply list_elem_of_In. vm_compute. auto. }
  split; [exact Hin |].
  exact (proj1 (encodeURIComponent_alphabet "a&b" "%"%char Hin)).
Defined.

(** A byte can be read back from its [%XX] form. *)
Lemma percentEncode_inj (c d : ascii) :
  percentEncode c = percentEncode d -> c = d.
Proof.
  pose (hexValue := fun a : ascii =>
          let n := N_of_ascii a in if (n <? 58)%N then (n - 48)%N else (n - 55)%N).
  pose (back := fun s : string =>
          match s with
          | String _ (String h (String l _)) => ascii_of_N (16 * hexValue h + hexValue l)
          | _ => zero
          end).
  assert (Hback : forall a, back (percentEncode a) = a).
  { intros a. destruct a as [[] [] [] [] [] [] [] []]; reflexivity. }
  intros E. rewrite <- (Hback c), <- (Hback d). now rewrite E.
Qed.

Lemma unreserved_not_percent (c : ascii) : unreserved c = true -> c <> "%"%char.
Proof. intros H ->. discriminate H. Qed.

(** X14. [encodeURIComponent] loses nothing: two texts with the same
    encoded form are the same text, so a link determines the message that
    was put in it. *)
Theorem encodeURIComponent_inj (a b : string) :
  encodeURIComponent a = encodeURIComponent b -> a = b.
Proof.
  revert b. induction a as [| c a IH]; intros [| d b]; cbn [encodeURIComponent].
  - reflexivity.
  - destruct (unreserved d); cbn; discriminate.
  - destruct (unreserved c); cbn; discriminate.
  - destruct (unreserved c) eqn:Hc; destruct (unreserved d) eqn:Hd;
      unfold percentEncode; cbn; intros E.
    + injection E as -> E. f_equal. auto.
    + injection E as -> _. now apply unreserved_not_percent in Hc.
    + injection E as <- _. now apply unreserved_not_percent in Hd.
    + injection E as E1 E2 E3.
      assert (c = d) as ->.
      { apply percentEncode_inj. unfold percentEncode. now rewrite E1, E2. }
      f_equal. auto.
Qed.

Lemma encodeURIComponent_inj_witness :
  encodeURIComponent ("klus!" +:+ " & co") = encodeURIComponent "klus! & co"
  /\ "klus!" +:+ " & co" = "klus! & co".
Proof.
  split; [reflexivity |].
  apply (encodeURIComponent_inj ("klus!" +:+ " & co") "klus! & co"). reflexivity.
Defined.

End EncoderFacts.

(** ** The worker, install and fetch together *)

Section WorkerSessionFacts.
Import ServiceWorker.

Variable origin : string.
Variable network : Request -> option Response.

(** X15. When one request of the manifest gets no answer the cache accepts
    (a network error, a status outside 200-299, a 206, an asterisk in
    [Vary]), the install fails and stores nothing: the cache holds what it
    held (it is empty if it is new) and [caches.match] answers every
    request as before. *)
Theorem failed_install_stores_nothing (cs : list (string * list (Request * Response))) :
  Exists (fun p => forall a, network (requestOf origin p) = Some a ->
                             cacheable a = false)
    urlsToCache ->
  let r := onInstall origin network cs in
  r.1 = false
  /\ lookupCache CACHE_NAME r.2 = Some (default [] (lookupCache CACHE_NAME cs))
  /\ (forall request, caches_match r.2 request = caches_match cs request)
  /\ (forall request network',
         onFetch network' r.2 request = onFetch network' cs request).
Proof.
  intros Hbad r.
  destruct (caches_open_effects CACHE_NAME cs) as (Hc0 & Hl & _).
  pose proof (caches_open_match CACHE_NAME cs) as Hm.
  assert (Hr : r = (false, (caches_open CACHE_NAME cs).2)).
  { subst r. unfold onInstall, addAll.
    destruct (caches_open CACHE_NAME cs) as [c0 cs1].
    now rewrite (fetchAll_fails origin network _ Hbad). }
  rewrite Hr. cbn [fst snd]. split; [reflexivity |].
  split; [now rewrite Hl, Hc0 |]. split; [exact Hm |].
  intros request network'. unfold onFetch. now rewrite Hm.
Qed.

(** X16. Installing twice is installing once: when the origin has no
    fragment and every request of the manifest gets an answer the cache
    accepts (a status 200-299 other than 206, no asterisk in [Vary]), a
    second install on the same network succeeds and leaves the cache
    storage exactly as the first one left it. *)
Theorem install_twice_is_install_once (cs : list (string * list (Request * Response))) :
  withoutFragment origin = origin ->
  Forall (fun p => exists a, network (requestOf origin p) = Some a
                             /\ cacheable a = true)
    urlsToCache ->
  onInstall origin network (onInstall origin network cs).2
  = (true, (onInstall origin network cs).2).
Proof.
  intros Ho Hall.
  destruct (onInstall_success origin network cs Ho Hall) as (ops & Hops & Hans & ->).
  cbn [snd].
  set (keep := fun e : Request * Response =>
                 negb (existsb (fun p => requestMatches (requestOf origin p) e)
                         urlsToCache)).
  set (c0 := (caches_open CACHE_NAME cs).1).
  set (cs1 := (caches_open CACHE_NAME cs).2).
  set (c1 := List.filter keep c0 ++ ops).
  assert (Hl1 : lookupCache CACHE_NAME (storeCache CACHE_NAME c1 cs1) = Some c1).
  { now rewrite lookupCache_storeCache, String.eqb_refl. }
  destruct (onInstall_success origin network (storeCache CACHE_NAME c1 cs1) Ho Hall)
    as (ops' & Hops' & _ & ->).
  assert (ops' = ops) as -> by congruence.
  unfold caches_open. rewrite Hl1. cbn [fst snd]. fold keep.
  assert (Hsame : List.filter keep c1 ++ ops = c1).
  { subst c1. rewrite List.filter_app, filter_filter_bool.
    rewrite (filter_none keep ops).
    - rewrite app_nil_r. f_equal. apply List.filter_ext. intros e.
      now destruct (keep e).
    - intros e He.
      destruct (answers_requests origin network _ _ Hans e He)
        as (p & Hp & Hreq & _ & Hc).
      unfold keep. apply negb_false_iff, List.existsb_exists.
      exists p. split; [now apply list_elem_of_In |].
      destruct e as [q a]. cbn [fst snd] in *. subst q.
      now apply requestOf_self. }
  rewrite Hsame. f_equal. now apply storeCache_same.
Qed.

(** X17. After a successful install every path of the manifest is
    answered from the cache, whatever the network does then, so the page
    and its sounds load offline: a GET for the URL of the path, with or
    without a fragment, that carries none of the headers the installed
    answer varies on gets a cached response; and when no cache answered
    that request before the install, the response is the one fetched at
    install. *)
Theorem installed_manifest_is_served_offline
        (cs : list (string * list (Request * Response))) (path : string)
        (a : Response) (request : Request)
        (network' : Request -> option Response) :
  withoutFragment origin = origin ->
  Forall (fun p => exists a, network (requestOf origin p) = Some a
                             /\ cacheable a = true)
    urlsToCache ->
  path ∈ urlsToCache ->
  network (requestOf origin path) = Some a ->
  method request = "GET" ->
  withoutFragment (url request) = origin +:+ path ->
  Forall (fun name => combinedValue name (headers request) = None) (vary a) ->
  let r := onInstall origin network cs in
  r.1 = true
  /\ (exists response, onFetch network' r.2 request = FromCache response)
  /\ (caches_match cs request = None ->
      onFetch network' r.2 request = FromCache a).
Proof.
  intros Ho Hall Hin Ha Hget Hurl Hvary r.
  destruct (onInstall_success origin network cs Ho Hall) as (ops & _ & Hans & Hrun).
  destruct (answers_of_path origin network _ _ path Hans Hin)
    as (a' & Ha' & Hcache & Hop).
  assert (a' = a) as -> by congruence.
  set (c1 := List.filter
               (fun e => negb (existsb (fun p => requestMatches (requestOf origin p) e)
                                 urlsToCache))
               (caches_open CACHE_NAME cs).1 ++ ops) in Hrun.
  assert (Hstored : (CACHE_NAME, c1) ∈ r.2).
  { subst r. rewrite Hrun. cbn [snd]. apply lookupCache_elem.
    now rewrite lookupCache_storeCache, String.eqb_refl. }
  assert (Hm : requestMatches request (requestOf origin path, a) = true).
  { apply requestOf_matches; [exact Ho | exact Hget | |].
    - now rewrite (urlsToCache_no_fragment path Hin).
    - pose proof (cacheable_vary a Hcache) as Hstar.
      rewrite Forall_forall in *. auto. }
  destruct (caches_match_hit r.2 request CACHE_NAME c1 _ Hstored
              (proj2 (elem_of_app _ _ _) (or_intror Hop)) Hm) as [response Hhit].
  split; [subst r; now rewrite Hrun |].
  split; [exists response; unfold onFetch; now rewrite Hhit |].
  intros Hnone. unfold onFetch. rewrite Hhit. f_equal.
  destruct (caches_match_Some _ _ _ Hhit) as (name & c & cached & Hc & He & Hmatch).
  destruct (onInstall_entries origin network cs name c _ Hc He)
    as [(name' & c' & Hc' & He') | (p & Hp & Hreq & Hnet & _)].
  - rewrite (proj1 (caches_match_None cs request) Hnone name' c' _ Hc' He') in Hmatch.
    discriminate.
  - cbn [fst snd] in Hreq, Hnet. subst cached.
    destruct (requestOf_matches_inv origin _ _ _ Ho Hmatch) as [_ Hu].
    rewrite (urlsToCache_no_fragment p Hp), Hurl in Hu.
    apply (inj (String.append origin)) in Hu. subst p. congruence.
Qed.

(** X18. The install adds nothing beyond the manifest, whether it succeeds
    or fails: a request that no cache answered before it, for a URL that
    even without its fragment is not one of the manifest (every sound of
    the directory [soundz], for one), is still passed to the network. *)
Theorem unlisted_request_goes_to_network
        (cs : list (string * list (Request * Response))) (request : Request)
        (network' : Request -> option Response) :
  caches_match cs request = None ->
  withoutFragment (url request)
    ∉ (fun p => withoutFragment (origin +:+ p)) <$> urlsToCache ->
  onFetch network' (onInstall origin network cs).2 request
  = FromNetwork (network' request).
Proof.
  intros Hnone Hnot. unfold onFetch.
  assert (H : caches_match (onInstall origin network cs).2 request = None);
    [| now rewrite H].
  apply caches_match_None. intros name c e Hc He.
  destruct (onInstall_entries origin network cs name c e Hc He)
    as [(name' & c' & Hc' & He') | (p & Hp & Hreq & _)].
  - exact (proj1 (caches_match_None cs request) Hnone name' c' e Hc' He').
  - destruct (requestMatches request e) eqn:Hm; [| reflexivity].
    exfalso. apply Hnot. destruct e as [q a]. cbn [fst] in Hreq. subst q.
    rewrite (requestOf_matches_url origin _ _ _ Hm).
    apply list_elem_of_fmap. eauto.
Qed.

End WorkerSessionFacts.

Lemma failed_install_stores_nothing_witness :
  (let r := ServiceWorker.onInstall "https://vibeboard.example" Samples.oneMissing [] in
   r.1 = false /\ ServiceWorker.lookupCache ServiceWorker.CACHE_NAME r.2 = Some [])
  /\ (let r := ServiceWorker.onInstall "https://vibeboard.example" Samples.onePartial [] in
      r.1 = false /\ ServiceWorker.lookupCache ServiceWorker.CACHE_NAME r.2 = Some []).
Proof.
  split.
  - destruct (failed_install_stores_nothing "https://vibeboard.example"
                Samples.oneMissing []) as (H1 & H2 & _).
    + apply Exists_exists. exists "/sounds/klus!.mp3". split.
      * apply list_elem_of_In. cbn. tauto.
      * intros a [= <-]. reflexivity.
    + split; [exact H1 | exact H2].
  - destruct (failed_install_stores_nothing "https://vibeboard.example"
                Samples.onePartial []) as (H1 & H2 & _).
    + apply Exists_exists. exists "/sounds/klus!.mp3". split.
      * apply list_elem_of_In. cbn. tauto.
      * intros a [= <-]. reflexivity.
    + split; [exact H1 | exact H2].
Defined.

Lemma install_twice_is_install_once_witness :
  ServiceWorker.onInstall "https://vibeboard.example" Samples.online
    (ServiceWorker.onInstall "https://vibeboard.example" Samples.online []).2
  = (true, (ServiceWorker.onInstall "https://vibeboard.example" Samples.online []).2).
Proof.
  apply (install_twice_is_install_once "https://vibeboard.example" Samples.online []).
  - reflexivity.
  - repeat constructor; eexists; split; reflexivity.
Defined.

Lemma installed_manifest_is_served_offline_witness :
  ServiceWorker.onFetch Samples.down
    (ServiceWorker.onInstall "https://vibeboard.example" Samples.online []).2
    Samples.toAnchor
  = ServiceWorker.FromCache
      {| ServiceWorker.status := 200;
         ServiceWorker.vary := [];
         ServiceWorker.payload := "https://vibeboard.example/index.html" |}.
Proof.
  destruct (installed_manifest_is_served_offline "https://vibeboard.example"
              Samples.online [] "/index.html"
              {| ServiceWorker.status := 200;
                 ServiceWorker.vary := [];
                 ServiceWorker.payload := "https://vibeboard.example/index.html" |}
              Samples.toAnchor Samples.down)
    as (_ & _ & H).
  - reflexivity.
  - repeat constructor; eexists; split; reflexivity.
  - apply list_elem_of_In. cbn. tauto.
  - reflexivity.
  - reflexivity.
  - reflexivity.
  - constructor.
  - exact (H eq_refl).
Defined.

Lemma unlisted_request_goes_to_network_witness :
  ServiceWorker.onFetch Samples.down
    (ServiceWorker.onInstall "https://vibeboard.example" Samples.online []).2
    (ServiceWorker.getRequest "https://vibeboard.example/soundz/gehaald.mp3#t=2")
  = ServiceWorker.FromNetwork None.
Proof.
  apply (unlisted_request_goes_to_network "https://vibeboard.example" Samples.online
           []
           (ServiceWorker.getRequest "https://vibeboard.example/soundz/gehaald.mp3#t=2")
           Samples.down).
  - reflexivity.
  - intros Hin. apply list_elem_of_In in Hin. cbn in Hin.
    repeat (destruct Hin as [Hin | Hin]; [discriminate Hin |]). exact Hin.
Defined.

